(** * Student finance tracker: the client-side view-model of [src/src/App.jsx]

    The development embeds the React component [App] of the tracker:
    its state variables, the three asynchronous handlers
    ([fetchTransactions], [handleAddTransaction], [handleDeleteTransaction]),
    the [userId] initializer and the summary aggregates computed on every
    render.  JavaScript values are modelled as the code has them: strings are
    sequences of UTF-16 code units, numbers are IEEE 754 binary64 values
    (the [spec_float] of the standard library at precision 53), [localStorage]
    is a finite map, and [fetch] is an effect whose outcome is chosen by the
    environment. *)

From Stdlib Require Import ZArith NArith List Bool Lia String Ascii.
From Stdlib Require Import SpecFloat Zpower.
From stdpp Require Import gmap.
Import ListNotations.

Local Open Scope list_scope.

(** ** JavaScript strings *)

Module JsString.

(** A string is its sequence of UTF-16 code units. *)
Abbreviation jsstring := (list N).

(** A literal of the source text (all literals of [App.jsx] are ASCII). *)
Definition str (s : string) : jsstring :=
  List.map N_of_ascii (list_ascii_of_string s).

Definition eqb (a b : jsstring) : bool := bool_decide (a = b).

(** [WhiteSpace] and [LineTerminator] of ECMAScript, the characters removed
    by [String.prototype.trim] and skipped by [parseFloat]. *)
Definition is_whitespace (c : N) : bool :=
  match c with
  | 9 | 10 | 11 | 12 | 13 | 32 | 160 | 5760
  | 8192 | 8193 | 8194 | 8195 | 8196 | 8197 | 8198 | 8199 | 8200 | 8201 | 8202
  | 8232 | 8233 | 8239 | 8287 | 12288 | 65279 => true
  | _ => false
  end%N.

Fixpoint trimStart (s : jsstring) : jsstring :=
  match s with
  | c :: r => if is_whitespace c then trimStart r else s
  | [] => []
  end.

Definition trimEnd (s : jsstring) : jsstring := rev (trimStart (rev s)).

(** [s.trim()] *)
Definition trim (s : jsstring) : jsstring := trimEnd (trimStart s).

(** [s.startsWith(p)] *)
Fixpoint startsWith (s p : jsstring) {struct p} : bool :=
  match p, s with
  | [], _ => true
  | _ :: _, [] => false
  | a :: p', b :: s' => N.eqb a b && startsWith s' p'
  end.

(** [s.includes(needle)] *)
Fixpoint includes (s needle : jsstring) : bool :=
  startsWith s needle ||
  match s with
  | [] => false
  | _ :: r => includes r needle
  end.

(** [s.substring(a, b)] for [a <= b]. *)
Definition substring (a b : nat) (s : jsstring) : jsstring :=
  firstn (b - a) (skipn a s).

(** Decimal rendering of a non-negative integer, as [`${n}`] prints it for
    the integers the program interpolates (status codes, [Date.now()]). *)
Fixpoint of_uint (u : Decimal.uint) : jsstring :=
  match u with
  | Decimal.Nil => []
  | Decimal.D0 r => 48%N :: of_uint r
  | Decimal.D1 r => 49%N :: of_uint r
  | Decimal.D2 r => 50%N :: of_uint r
  | Decimal.D3 r => 51%N :: of_uint r
  | Decimal.D4 r => 52%N :: of_uint r
  | Decimal.D5 r => 53%N :: of_uint r
  | Decimal.D6 r => 54%N :: of_uint r
  | Decimal.D7 r => 55%N :: of_uint r
  | Decimal.D8 r => 56%N :: of_uint r
  | Decimal.D9 r => 57%N :: of_uint r
  end.

Definition of_N (n : N) : jsstring := of_uint (N.to_uint n).

(** The double quote character. *)
Definition quote : jsstring := [34%N].

(** A string is truthy when it is not empty. *)
Definition truthy (s : jsstring) : bool :=
  match s with [] => false | _ :: _ => true end.

(** [a || b] on strings. *)
Definition or_else (a b : jsstring) : jsstring := if truthy a then a else b.

End JsString.
Export JsString.
Arguments str _%_string.

(** ** JavaScript numbers *)

Module JsNumber.

(** A number is an IEEE 754 binary64 value; all NaNs are one value. *)
Definition number : Type := spec_float.

Definition prec : Z := 53.
Definition emax : Z := 1024.

Definition NaN : number := S754_nan.
Definition zero : number := S754_zero false.
Definition Infinity : number := S754_infinity false.

(** [a + b], [a - b], [a <= b], [-a] on numbers. *)
Definition add (a b : number) : number := SFadd prec emax a b.
Definition sub (a b : number) : number := SFsub prec emax a b.
Definition leb (a b : number) : bool := SFleb a b.
Definition ltb (a b : number) : bool := SFltb a b.
Definition neg (a : number) : number := SFopp a.

(** [isNaN(x)] *)
Definition isNaN (x : number) : bool :=
  match x with S754_nan => true | _ => false end.

(** The number of an integer. *)
Definition of_Z (z : Z) : number := binary_normalize prec emax z 0 false.

(** The number nearest to [m * 10^e] for a non-negative integer [m]
    (round to nearest, ties to even): the value ECMAScript gives a decimal
    literal, with every digit taken into account as the engines in use do.
    For a negative exponent the quotient [m * 2^s / 10^-e] is
    computed with more than 64 significant bits and the position of the
    remainder relative to one half, and rounded once. *)
Definition of_decimal (m : N) (e : Z) : number :=
  match m with
  | N0 => zero
  | Npos p =>
      if (0 <=? e)%Z then binary_normalize prec emax (Zpos p * 10 ^ e) 0 false
      else
        let d := (10 ^ (- e))%Z in
        let s := (Z.log2 d + 65)%Z in
        let n := (Zpos p * 2 ^ s)%Z in
        let q := (n / d)%Z in
        let r := (n mod d)%Z in
        let l := if (r =? 0)%Z then loc_Exact else loc_Inexact (2 * r ?= d)%Z in
        binary_round_aux prec emax false q (- s) l
  end.

Definition is_digit (c : N) : bool := (48 <=? c)%N && (c <=? 57)%N.

(** The longest run of decimal digits at the head of [s], and what follows. *)
Fixpoint span_digits (s : jsstring) : list N * jsstring :=
  match s with
  | c :: r =>
      if is_digit c then let '(ds, rest) := span_digits r in (c :: ds, rest)
      else ([], s)
  | [] => ([], [])
  end.

(** The integer written by a run of decimal digits. *)
Definition digits_value (ds : list N) : N :=
  fold_left (fun acc c => (10 * acc + (c - 48))%N) ds 0%N.

(** The [ExponentPart] at the head of [s], if there is a complete one:
    [e] or [E], an optional sign, at least one digit. *)
Definition exponent_part (s : jsstring) : Z :=
  match s with
  | c :: r =>
      if (c =? 101)%N || (c =? 69)%N then
        match r with
        | 43%N :: r' =>
            match span_digits r' with
            | ([], _) => 0%Z
            | (ds, _) => Z.of_N (digits_value ds)
            end
        | 45%N :: r' =>
            match span_digits r' with
            | ([], _) => 0%Z
            | (ds, _) => (- Z.of_N (digits_value ds))%Z
            end
        | _ =>
            match span_digits r with
            | ([], _) => 0%Z
            | (ds, _) => Z.of_N (digits_value ds)
            end
        end
      else 0%Z
  | [] => 0%Z
  end.

(** The value of the longest prefix of [s] that is a
    [StrUnsignedDecimalLiteral]; [NaN] when no prefix is one. *)
Definition parse_unsigned (s : jsstring) : number :=
  if startsWith s (str "Infinity") then Infinity
  else
    let '(ip, rest) := span_digits s in
    match rest with
    | 46%N :: rest' =>
        let '(fp, rest'') := span_digits rest' in
        match ip, fp with
        | [], [] => NaN
        | _, _ =>
            of_decimal (digits_value (ip ++ fp))
                       (exponent_part rest'' - Z.of_nat (length fp))
        end
    | _ =>
        match ip with
        | [] => NaN
        | _ => of_decimal (digits_value ip) (exponent_part rest)
        end
    end.

(** [parseFloat(s)] for a string [s]: leading white space is skipped, an
    optional sign is read, and the longest decimal-literal prefix is
    converted; anything after it is ignored. *)
Definition parseFloat (s : jsstring) : number :=
  match trimStart s with
  | 43%N :: r => parse_unsigned r
  | 45%N :: r => neg (parse_unsigned r)
  | r => parse_unsigned r
  end.

(** [x.toFixed(2)] for a number below 10^21 in magnitude: the integer [n]
    with [n / 100] nearest to [x] (the larger one on a tie) is printed with
    a point before its last two digits.  From 10^21 on the method prints in
    exponent notation, which is not modelled: the result is [None]. *)
Definition hundredths (m : positive) (e : Z) : N :=
  if (0 <=? e)%Z then Z.to_N (Zpos m * 2 ^ e * 100)
  else Z.to_N ((200 * Zpos m + 2 ^ (- e)) / 2 ^ (1 - e)).

Definition fixed2 (n : N) : jsstring :=
  let ds := of_N n in
  let ds := List.repeat 48%N (3 - length ds) ++ ds in
  firstn (length ds - 2) ds ++ str "." ++ skipn (length ds - 2) ds.

Definition toFixed2 (x : number) : option jsstring :=
  match x with
  | S754_nan => Some (str "NaN")
  | S754_infinity false => Some (str "Infinity")
  | S754_infinity true => Some (str "-Infinity")
  | S754_zero _ => Some (str "0.00")
  | S754_finite sg m e =>
      if (10 ^ 21 <=? Zpos m * 2 ^ e)%Z then None
      else Some ((if sg then str "-" else []) ++ fixed2 (hundredths m e))
  end.

End JsNumber.
Export JsNumber.

(** ** Data model *)

(** The [amount] of a transaction received from the server is a JSON number
    or a JSON string; the program reads it through [parseFloat]. *)
Inductive AmountValue : Type :=
  | AmountNumber (n : number)
  | AmountString (s : jsstring).

(** [parseFloat(v)] converts [v] to a string first.  The decimal text of a
    number reads back as the same number, except that both zeros print as
    [0]. *)
Definition parseFloatOf (v : AmountValue) : number :=
  match v with
  | AmountNumber (S754_zero _) => zero
  | AmountNumber n => n
  | AmountString s => parseFloat s
  end.

(** One element of the array the server answers a List with. *)
Record Transaction : Type := {
  tx_id : jsstring;
  tx_description : jsstring;
  tx_amount : AmountValue;
  tx_type : jsstring;
  tx_timestamp : N;
  tx_userId : jsstring
}.

(** The state variables of [App] (lines 6-13). *)
Record AppState : Type := {
  description : jsstring;
  amount : jsstring;
  type : jsstring;
  transactions : list Transaction;
  loading : bool;
  message : jsstring;
  showMessage : bool;
  userId : jsstring
}.

(** A call of one of the state setters returned by [useState]. *)
Inductive Setter : Type :=
  | setDescription (v : jsstring)
  | setAmount (v : jsstring)
  | setType (v : jsstring)
  | setTransactions (v : list Transaction)
  | setLoading (v : bool)
  | setMessage (v : jsstring)
  | setShowMessage (v : bool).

Definition apply_setter (u : Setter) (s : AppState) : AppState :=
  match u with
  | setDescription v =>
      {| description := v; amount := amount s; type := type s;
         transactions := transactions s; loading := loading s;
         message := message s; showMessage := showMessage s;
         userId := userId s |}
  | setAmount v =>
      {| description := description s; amount := v; type := type s;
         transactions := transactions s; loading := loading s;
         message := message s; showMessage := showMessage s;
         userId := userId s |}
  | setType v =>
      {| description := description s; amount := amount s; type := v;
         transactions := transactions s; loading := loading s;
         message := message s; showMessage := showMessage s;
         userId := userId s |}
  | setTransactions v =>
      {| description := description s; amount := amount s; type := type s;
         transactions := v; loading := loading s;
         message := message s; showMessage := showMessage s;
         userId := userId s |}
  | setLoading v =>
      {| description := description s; amount := amount s; type := type s;
         transactions := transactions s; loading := v;
         message := message s; showMessage := showMessage s;
         userId := userId s |}
  | setMessage v =>
      {| description := description s; amount := amount s; type := type s;
         transactions := transactions s; loading := loading s;
         message := v; showMessage := showMessage s;
         userId := userId s |}
  | setShowMessage v =>
      {| description := description s; amount := amount s; type := type s;
         transactions := transactions s; loading := loading s;
         message := message s; showMessage := v;
         userId := userId s |}
  end.

(** The state of the first render: the [useState] defaults of lines 6-12 and
    the identifier produced by the initializer of line 13. *)
Definition initialState (uid : jsstring) : AppState :=
  {| description := []; amount := []; type := str "expense";
     transactions := []; loading := true; message := [];
     showMessage := false; userId := uid |}.

(** ** The network *)

Inductive Method : Type := GET | POST | DELETE.

(** The object handed to [JSON.stringify] at line 85. *)
Record AddBody : Type := {
  body_description : jsstring;
  body_amount : number;
  body_type : jsstring;
  body_userId : jsstring
}.

(** The arguments of one [fetch] call. *)
Record Request : Type := {
  url : jsstring;
  method : Method;
  body : option AddBody
}.

(** What awaiting a read of the body gives: the value read, or a rejection
    with a message (the body is not JSON, the connection broke). *)
Inductive BodyRead (A : Type) : Type :=
  | Resolves (v : A)
  | Rejects (msg : jsstring).
Arguments Resolves {A} v.
Arguments Rejects {A} msg.

(** A response of the API.  The body is seen through the three reads the
    program makes of it: [response.text()] (line 38); [response.json()]
    where the value is stored as the transaction array (line 41), the
    success body of a List being an array of transactions; and
    [response.json()] followed by the read of [errorData.error] (lines
    89-90 and 122-123).  The last gives the [error] property as the string
    the [Error] constructor makes of it, [None] when the property is absent
    or a falsy value other than the empty string, and rejects when the body
    is not JSON or the value is [null]. *)
Record Response : Type := {
  status : N;
  text : BodyRead jsstring;
  json_data : BodyRead (list Transaction);
  json_error : BodyRead (option jsstring)
}.

(** [response.ok]: the status is in the range 200-299. *)
Definition ok (r : Response) : bool :=
  (200 <=? status r)%N && (status r <=? 299)%N.

(** How a [fetch] call settles: the promise rejects with a [TypeError]
    carrying a browser-specific message, or resolves with a response. *)
Inductive FetchOutcome : Type :=
  | Rejected (msg : jsstring)
  | Responded (r : Response).

(** ** Asynchronous programs

    An [async] function is a tree: it returns, throws an [Error] with a
    message, calls a state setter, or awaits a [fetch] and continues with
    its outcome. *)

Inductive prog (A : Type) : Type :=
  | Ret (a : A)
  | Throw (msg : jsstring)
  | Update (u : Setter) (k : prog A)
  | Fetch (r : Request) (k : FetchOutcome -> prog A).
Arguments Ret {A} a.
Arguments Throw {A} msg.
Arguments Update {A} u k.
Arguments Fetch {A} r k.

Fixpoint bind {A B : Type} (p : prog A) (f : A -> prog B) : prog B :=
  match p with
  | Ret a => f a
  | Throw msg => Throw msg
  | Update u k => Update u (bind k f)
  | Fetch r k => Fetch r (fun o => bind (k o) f)
  end.

(** [try { p } catch (e) { h e.message }] *)
Fixpoint tryCatch {A : Type} (p : prog A) (h : jsstring -> prog A) : prog A :=
  match p with
  | Ret a => Ret a
  | Throw msg => h msg
  | Update u k => Update u (tryCatch k h)
  | Fetch r k => Fetch r (fun o => tryCatch (k o) h)
  end.

(** [try { p } finally { u }] for a finalizer that is one setter call. *)
Fixpoint finally {A : Type} (p : prog A) (u : Setter) : prog A :=
  match p with
  | Ret a => Update u (Ret a)
  | Throw msg => Update u (Throw msg)
  | Update v k => Update v (finally k u)
  | Fetch r k => Fetch r (fun o => finally (k o) u)
  end.

Declare Scope prog_scope.
Delimit Scope prog_scope with prog.
Notation "x <- p ;; q" := (bind p (fun x => q))
  (at level 100, p at next level, right associativity) : prog_scope.
Notation "p ;; q" := (bind p (fun _ => q))
  (at level 100, right associativity) : prog_scope.
Local Open Scope prog_scope.

(** One setter call as a program. *)
Definition set (u : Setter) : prog unit := Update u (Ret tt).

(** [await fetch(...)]: a rejection is thrown at the [await]. *)
Definition fetch (r : Request) : prog Response :=
  Fetch r (fun o =>
    match o with
    | Rejected msg => Throw msg
    | Responded resp => Ret resp
    end).

(** [await response.text()], [await response.json()]: a rejection is thrown
    at the [await]. *)
Definition await_body {A : Type} (b : BodyRead A) : prog A :=
  match b with
  | Resolves v => Ret v
  | Rejects msg => Throw msg
  end.

(** ** The component *)

Module App.

(** Line 27. *)
Definition API_BASE_URL : jsstring := str "http://localhost:5000/api".

(** *** Identity provisioner (lines 13-23)

    [localStorage] is a finite map from keys to values; [getItem] of an
    absent key is [null].  The clock reading [Date.now()] and the text
    [Math.random().toString(36)] are inputs of the initializer. *)

Definition storageKey : jsstring := str "financeAppUserId".

Definition newUserId (now : N) (random36 : jsstring) : jsstring :=
  str "user_" ++ of_N now ++ str "_" ++ substring 2 9 random36.

(** The initializer returns the identifier and the storage it leaves. *)
Definition initUserId (storage : gmap jsstring jsstring)
    (now : N) (random36 : jsstring) : jsstring * gmap jsstring jsstring :=
  match storage !! storageKey with
  | Some storedUserId =>
      if truthy storedUserId then (storedUserId, storage)
      else
        let fresh := newUserId now random36 in
        (fresh, <[storageKey := fresh]> storage)
  | None =>
      let fresh := newUserId now random36 in
      (fresh, <[storageKey := fresh]> storage)
  end.

(** *** Messages *)

Definition isNetworkMessage (msg : jsstring) : bool :=
  includes msg (str "Failed to fetch") || includes msg (str "NetworkError").

(** Line 47. *)
Definition cannotConnectOnFetch : jsstring :=
  str "Could not connect to the backend server at " ++ API_BASE_URL ++
  str ". Please ensure your backend (server.js) is running in a separate terminal.".

(** Lines 104 and 134. *)
Definition cannotConnect : jsstring :=
  str "Could not connect to the backend server at " ++ API_BASE_URL ++
  str ". Please ensure your backend (server.js) is running.".

Definition msgBothRequired : jsstring :=
  str "Please enter both description and amount.".
Definition msgPositiveAmount : jsstring :=
  str "Please enter a valid positive amount.".
Definition msgAdded : jsstring := str "Transaction added successfully!".
Definition msgDeleted : jsstring := str "Transaction deleted successfully!".

(** Line 39: the message of the error thrown for a response that is not ok. *)
Definition httpErrorOnFetch (st : N) (errorText : jsstring) : jsstring :=
  str "HTTP error! Status: " ++ of_N st ++ str ". Message: " ++
  or_else errorText (str "No message provided.").

(** Lines 90 and 123: [errorData.error || `HTTP error! status: ...`]. *)
Definition httpErrorOnMutation (st : N) (error : option jsstring) : jsstring :=
  let generic := str "HTTP error! status: " ++ of_N st in
  match error with
  | Some e => or_else e generic
  | None => generic
  end.

(** Lines 45-48. *)
Definition fetchUserMessage (msg : jsstring) : jsstring :=
  if isNetworkMessage msg then cannotConnectOnFetch
  else str "Error fetching data: " ++ msg.

(** Lines 102-105. *)
Definition addUserMessage (msg : jsstring) : jsstring :=
  if isNetworkMessage msg then cannotConnect
  else str "Error adding transaction: " ++ msg.

(** Lines 132-135. *)
Definition deleteUserMessage (msg : jsstring) : jsstring :=
  if isNetworkMessage msg then cannotConnect
  else str "Error deleting transaction: " ++ msg.

(** *** Requests *)

Definition listRequest (uid : jsstring) : Request :=
  {| url := API_BASE_URL ++ str "/transactions/" ++ uid;
     method := GET; body := None |}.

Definition addRequest (b : AddBody) : Request :=
  {| url := API_BASE_URL ++ str "/transactions";
     method := POST; body := Some b |}.

Definition deleteRequest (id : jsstring) : Request :=
  {| url := API_BASE_URL ++ str "/transactions/" ++ id;
     method := DELETE; body := None |}.

(** *** Handlers

    A handler closes over the values of the render it was created in; the
    values it reads are its parameters. *)

(** Lines 30-55. *)
Definition fetchTransactions (uid : jsstring) : prog unit :=
  set (setLoading true) ;;
  finally
    (tryCatch
       (response <- fetch (listRequest uid) ;;
        if negb (ok response) then
          errorText <- await_body (text response) ;;
          Throw (httpErrorOnFetch (status response) errorText)
        else
          data <- await_body (json_data response) ;;
          set (setTransactions data))
       (fun msg =>
          set (setMessage (fetchUserMessage msg)) ;;
          set (setShowMessage true) ;;
          set (setTransactions [])))
    (setLoading false).

(** Lines 65-111. *)
Definition handleAddTransaction
    (description amount type uid : jsstring) : prog unit :=
  if negb (truthy (trim description)) || negb (truthy amount) then
    set (setMessage msgBothRequired) ;;
    set (setShowMessage true)
  else
    let numAmount := parseFloat amount in
    if isNaN numAmount || leb numAmount zero then
      set (setMessage msgPositiveAmount) ;;
      set (setShowMessage true)
    else
      set (setLoading true) ;;
      finally
        (tryCatch
           (response <- fetch (addRequest
                {| body_description := trim description;
                   body_amount := numAmount;
                   body_type := type;
                   body_userId := uid |}) ;;
            (if negb (ok response) then
               errorData <- await_body (json_error response) ;;
               Throw (httpErrorOnMutation (status response) errorData)
             else Ret tt) ;;
            fetchTransactions uid ;;
            set (setDescription []) ;;
            set (setAmount []) ;;
            set (setType (str "expense")) ;;
            set (setMessage msgAdded) ;;
            set (setShowMessage true))
           (fun msg =>
              set (setMessage (addUserMessage msg)) ;;
              set (setShowMessage true)))
        (setLoading false).

(** Lines 114-141. *)
Definition handleDeleteTransaction (uid id : jsstring) : prog unit :=
  set (setLoading true) ;;
  finally
    (tryCatch
       (response <- fetch (deleteRequest id) ;;
        (if negb (ok response) then
           errorData <- await_body (json_error response) ;;
           Throw (httpErrorOnMutation (status response) errorData)
         else Ret tt) ;;
        fetchTransactions uid ;;
        set (setMessage msgDeleted) ;;
        set (setShowMessage true))
       (fun msg =>
          set (setMessage (deleteUserMessage msg)) ;;
          set (setShowMessage true)))
    (setLoading false).

(** *** Aggregates computed on every render (lines 144-152) *)

Definition totalIncome (transactions : list Transaction) : number :=
  fold_left (fun sum t => add sum (parseFloatOf (tx_amount t)))
    (List.filter (fun t => eqb (tx_type t) (str "income")) transactions)
    zero.

Definition totalExpenses (transactions : list Transaction) : number :=
  fold_left (fun sum t => add sum (parseFloatOf (tx_amount t)))
    (List.filter (fun t => eqb (tx_type t) (str "expense")) transactions)
    zero.

Definition balance (transactions : list Transaction) : number :=
  sub (totalIncome transactions) (totalExpenses transactions).

(** [`$${x.toFixed(2)}`], the text of a summary cell (lines 249-257). *)
Definition dollars (x : number) : option jsstring :=
  option_map (fun t => str "$" ++ t) (toFixed2 x).

(** What a render shows of the state: the three aggregates, the texts they
    are displayed as, and whether the Add and Delete buttons are disabled
    (lines 236 and 297). *)
Record View : Type := {
  view_totalIncome : number;
  view_totalExpenses : number;
  view_balance : number;
  view_summary : option jsstring * option jsstring * option jsstring;
  view_controlsDisabled : bool
}.

Definition render (s : AppState) : View :=
  {| view_totalIncome := totalIncome (transactions s);
     view_totalExpenses := totalExpenses (transactions s);
     view_balance := balance (transactions s);
     view_summary := (dollars (totalIncome (transactions s)),
                      dollars (totalExpenses (transactions s)),
                      dollars (balance (transactions s)));
     view_controlsDisabled := loading s |}.

End App.
Export App.

(** ** Running a handler against an environment

    The environment answers every [fetch]: it is a state [W] with a
    function [serve] from its state and a request to the outcome of the
    call and its next state.  Any server, proxy or broken connection is
    such a pair. *)

Record Run (A W : Type) : Type := {
  result : A + jsstring;        (** returned value, or the message thrown *)
  final : AppState;             (** the state variables at the end *)
  world : W;                    (** the environment at the end *)
  calls : list Request          (** the [fetch] calls made, in order *)
}.
Arguments result {A W} r.
Arguments final {A W} r.
Arguments world {A W} r.
Arguments calls {A W} r.

Fixpoint run {A W : Type} (serve : W -> Request -> FetchOutcome * W)
    (p : prog A) (s : AppState) (w : W) : Run A W :=
  match p with
  | Ret a => {| result := inl a; final := s; world := w; calls := [] |}
  | Throw msg => {| result := inr msg; final := s; world := w; calls := [] |}
  | Update u k => run serve k (apply_setter u s) w
  | Fetch r k =>
      let '(o, w') := serve w r in
      let rest := run serve (k o) s w' in
      {| result := result rest; final := final rest; world := world rest;
         calls := r :: calls rest |}
  end.

(** ** Interleaved execution

    Between two awaits a handler runs without interruption; while it is
    suspended at a [fetch] the user can edit the form, dismiss the notice
    and click whatever is enabled, and any outstanding request can settle.
    A configuration is the state variables and the suspended handlers. *)

Record Pending : Type := {
  request : Request;
  resume : FetchOutcome -> prog unit
}.

Record Config : Type := {
  app : AppState;
  pending : list Pending
}.

(** Runs [p] up to its next [await]: the state reached, and the request it
    is suspended at if it has not finished. *)
Fixpoint advance (p : prog unit) (s : AppState) : AppState * option Pending :=
  match p with
  | Ret _ => (s, None)
  | Throw _ => (s, None)
  | Update u k => advance k (apply_setter u s)
  | Fetch r k => (s, Some {| request := r; resume := k |})
  end.

Definition enqueue (o : option Pending) (l : list Pending) : list Pending :=
  match o with
  | Some p => l ++ [p]
  | None => l
  end.

(** Starts handler [p] in configuration [c]. *)
Definition launch (p : prog unit) (c : Config) : Config :=
  let '(s, o) := advance p (app c) in
  {| app := s; pending := enqueue o (pending c) |}.

(** How the application is built.  [main.jsx] renders [App] inside
    [React.StrictMode] (lines 6-8), which in a development build runs every
    effect a second time when the component mounts and does nothing in a
    production build. *)
Inductive Build : Type := Production | Development.

(** The number of times the effect of line 58 runs at mount. *)
Definition effectRuns (b : Build) : nat :=
  match b with
  | Production => 1
  | Development => 2
  end.

(** Starts handler [p] [n] times in a row. *)
Fixpoint launchTimes (n : nat) (p : prog unit) (c : Config) : Config :=
  match n with
  | O => c
  | S n' => launchTimes n' p (launch p c)
  end.

(** The first render with identifier [uid], after the effect of line 58 has
    called [fetchTransactions] as many times as the build runs it (the
    effect does nothing for an empty identifier). *)
Definition mount (b : Build) (uid : jsstring) : Config :=
  let c := {| app := initialState uid; pending := [] |} in
  if truthy uid then launchTimes (effectRuns b) (fetchTransactions uid) c
  else c.

Inductive step : Config -> Config -> Prop :=
  | step_edit_description c v :
      step c {| app := apply_setter (setDescription v) (app c);
                pending := pending c |}
  | step_edit_amount c v :
      step c {| app := apply_setter (setAmount v) (app c);
                pending := pending c |}
  | step_edit_type c v :
      step c {| app := apply_setter (setType v) (app c);
                pending := pending c |}
  | step_dismiss c :
      step c {| app := apply_setter (setShowMessage false) (app c);
                pending := pending c |}
  | step_click_add c :
      view_controlsDisabled (render (app c)) = false ->
      step c (launch (handleAddTransaction (description (app c))
                        (amount (app c)) (type (app c)) (userId (app c))) c)
  | step_click_delete c t :
      view_controlsDisabled (render (app c)) = false ->
      In t (transactions (app c)) ->
      step c (launch (handleDeleteTransaction (userId (app c)) (tx_id t)) c)
  | step_settle c before p after o :
      pending c = before ++ p :: after ->
      step c (launch (resume p o)
                {| app := app c; pending := before ++ after |}).

(** The configurations the application can be in when it is built as [b]
    and mounted with identifier [uid]. *)
Inductive reachable (b : Build) (uid : jsstring) : Config -> Prop :=
  | reachable_mount : reachable b uid (mount b uid)
  | reachable_step c c' : reachable b uid c -> step c c' -> reachable b uid c'.

(** The events of a session, as functions: the first outstanding request
    settles with outcome [o]; the user fills in the form; the user clicks
    Add. *)
Definition settleFirst (o : FetchOutcome) (c : Config) : Config :=
  match pending c with
  | p :: after => launch (resume p o) {| app := app c; pending := after |}
  | [] => c
  end.

Definition fillForm (d a : jsstring) (c : Config) : Config :=
  {| app := apply_setter (setAmount a) (apply_setter (setDescription d) (app c));
     pending := pending c |}.

Definition clickAdd (c : Config) : Config :=
  launch (handleAddTransaction (description (app c)) (amount (app c))
            (type (app c)) (userId (app c))) c.

Definition isMutating (r : Request) : bool :=
  match method r with
  | GET => false
  | POST | DELETE => true
  end.

(** The requests of a configuration that change the server's data. *)
Definition mutatingInFlight (c : Config) : list Request :=
  List.filter isMutating (List.map request (pending c)).

(** A handler started with [loading] equal to [l] has the flag raised at
    every [await] and lowers it before it ends, whatever the flag has become
    when it is resumed. *)
Fixpoint brackets (p : prog unit) (l : bool) : Prop :=
  match p with
  | Ret _ => l = false
  | Throw _ => l = false
  | Update (setLoading v) k => brackets k v
  | Update _ k => brackets k l
  | Fetch _ k => l = true /\ forall o l', brackets (k o) l'
  end.

(** The invariant of the interleaved execution: nothing is outstanding and
    the flag is lowered, or one request is outstanding, the flag is raised
    and the suspended handler will lower it. *)
Definition idle_or_pending (c : Config) : Prop :=
  match pending c with
  | [] => loading (app c) = false
  | [p] => loading (app c) = true /\ forall o l, brackets (resume p o) l
  | _ :: _ :: _ => False
  end.

(** What holds in every build: when nothing is outstanding the flag is
    lowered, and every suspended handler will lower it. *)
Definition eventually_idle (c : Config) : Prop :=
  (pending c = [] -> loading (app c) = false) /\
  Forall (fun p => forall o l, brackets (resume p o) l) (pending c).

(** ** The remote transaction store *)

Module Store.

(** Modelled from the spec: the remote transaction storage API, which is not
    part of this repository.  Section 6 gives its contract: a List request
    [GET /api/transactions/{userId}] answers with the array of that user's
    transactions; a creation request [POST /api/transactions] with a body
    of description, amount, type and userId answers with the created
    transaction or an error body; [DELETE /api/transactions/{id}] answers
    with a success indicator or an error body.  Section 3 gives the
    invariants of a stored transaction (non-blank description, positive
    amount, type income or expense) and says that the store assigns the
    id.  Requests that break an invariant are answered with status 400,
    unknown routes and ids with status 404.  The text of a success body is
    left empty: the client never reads it. *)
Record Server : Type := {
  stored : list Transaction;
  nextId : N;
  clock : N
}.

Definition empty : Server := {| stored := []; nextId := 1; clock := 0 |}.

(** [s] without the prefix [p], when it has that prefix. *)
Fixpoint stripPrefix (p s : jsstring) {struct p} : option jsstring :=
  match p, s with
  | [], _ => Some s
  | _ :: _, [] => None
  | a :: p', b :: s' => if N.eqb a b then stripPrefix p' s' else None
  end.

Definition ofUser (uid : jsstring) (l : list Transaction) : list Transaction :=
  List.filter (fun t => eqb (tx_userId t) uid) l.

Definition isFinitePositive (n : number) : bool :=
  match n with
  | S754_finite false _ _ => true
  | _ => false
  end.

Definition validBody (b : AddBody) : bool :=
  truthy (trim (body_description b)) &&
  isFinitePositive (body_amount b) &&
  (eqb (body_type b) (str "income") || eqb (body_type b) (str "expense")).

Definition created (srv : Server) (b : AddBody) : Transaction :=
  {| tx_id := of_N (nextId srv);
     tx_description := body_description b;
     tx_amount := AmountNumber (body_amount b);
     tx_type := body_type b;
     tx_timestamp := clock srv;
     tx_userId := body_userId b |}.

Definition success (st : N) (data : list Transaction) : FetchOutcome :=
  Responded {| status := st; text := Resolves [];
               json_data := Resolves data;
               json_error := Resolves None |}.

Definition failure (st : N) (error : jsstring) : FetchOutcome :=
  Responded {| status := st;
               text := Resolves
                         (str "{" ++ quote ++ str "error" ++ quote ++
                          str ":" ++ quote ++ error ++ quote ++ str "}");
               json_data := Resolves [];
               json_error := Resolves (Some error) |}.

Definition tick (srv : Server) : Server :=
  {| stored := stored srv; nextId := nextId srv; clock := clock srv + 1 |}.

Definition serve (srv : Server) (r : Request) : FetchOutcome * Server :=
  match method r, body r with
  | GET, _ =>
      match stripPrefix (API_BASE_URL ++ str "/transactions/") (url r) with
      | Some uid => (success 200 (ofUser uid (stored srv)), tick srv)
      | None => (failure 404 (str "Not found"), tick srv)
      end
  | POST, Some b =>
      if eqb (url r) (API_BASE_URL ++ str "/transactions") then
        if validBody b then
          (success 201 [created srv b],
           {| stored := stored srv ++ [created srv b];
              nextId := nextId srv + 1;
              clock := clock srv + 1 |})
        else (failure 400 (str "Invalid transaction"), tick srv)
      else (failure 404 (str "Not found"), tick srv)
  | POST, None => (failure 400 (str "Invalid transaction"), tick srv)
  | DELETE, _ =>
      match stripPrefix (API_BASE_URL ++ str "/transactions/") (url r) with
      | Some id =>
          if existsb (fun t => eqb (tx_id t) id) (stored srv) then
            (success 200 [],
             {| stored := List.filter (fun t => negb (eqb (tx_id t) id))
                            (stored srv);
                nextId := nextId srv;
                clock := clock srv + 1 |})
          else (failure 404 (str "Transaction not found"), tick srv)
      | None => (failure 404 (str "Not found"), tick srv)
      end
  end.

End Store.

(** ** The spec's reading of the aggregates

    Section 4.2 defines each total as the sum of the amounts of the
    transactions of one type.  The sum is taken in list order from zero, in
    the arithmetic of the program's numbers. *)

Definition amountOf (t : Transaction) : number := parseFloatOf (tx_amount t).

Fixpoint sumFrom (acc : number) (ty : jsstring) (l : list Transaction) : number :=
  match l with
  | [] => acc
  | t :: r =>
      if eqb (tx_type t) ty then sumFrom (add acc (amountOf t)) ty r
      else sumFrom acc ty r
  end.

Definition sumOfType (ty : jsstring) (l : list Transaction) : number :=
  sumFrom zero ty l.

(** The same section says the totals are these sums "exactly".  Read to the
    letter, the sum is that of the real numbers the amounts stand for.  The
    exact value of a finite number is counted here in units of 2^-1074, the
    spacing of the smallest numbers, so that it is an integer; an infinite
    number and [NaN] have none. *)

Section ExactSums.
Local Open Scope Z_scope.

Definition exactValue (x : number) : option Z :=
  match x with
  | S754_zero _ => Some 0
  | S754_finite s m e => Some (cond_Zopp s (Zpos m) * 2 ^ (e + 1074))
  | _ => None
  end.

(** The exact sum of the amounts of the transactions of one type. *)
Fixpoint exactSumOfType (ty : jsstring) (l : list Transaction) : option Z :=
  match l with
  | [] => Some 0
  | t :: r =>
      if eqb (tx_type t) ty then
        match exactValue (amountOf t), exactSumOfType ty r with
        | Some a, Some b => Some (a + b)
        | _, _ => None
        end
      else exactSumOfType ty r
  end.

(** The exact income total minus the exact expense total. *)
Definition exactBalance (l : list Transaction) : option Z :=
  match exactSumOfType (str "income") l, exactSumOfType (str "expense") l with
  | Some a, Some b => Some (a - b)
  | _, _ => None
  end.

(** The amount [v] of a transaction is the whole number [k]: the server
    sent the JSON number [k], or a string that [parseFloat] reads as [k]. *)
Definition wholeAmount (k : Z) (v : AmountValue) : Prop :=
  0 <= k < 2 ^ 53 /\
  (v = AmountNumber (of_Z k) \/
   exists s, v = AmountString s /\ parseFloat s = of_Z k).

(** The sum, in the integers, of the whole amounts [k t] of the transactions
    of one type. *)
Fixpoint wholeSum (k : Transaction -> Z) (ty : jsstring) (l : list Transaction) : Z :=
  match l with
  | [] => 0
  | t :: r => if eqb (tx_type t) ty then k t + wholeSum k ty r else wholeSum k ty r
  end.

(** A shift record with nothing shifted out yet. *)
Definition rec0 (m : Z) : shr_record :=
  {| shr_m := m; shr_r := false; shr_s := false |}.

End ExactSums.

(** ** What the handlers do with an outcome *)

(** The try block of [fetchTransactions]: the array it stores, or the
    message of the error it throws. *)
Definition listOutcome (o : FetchOutcome) : list Transaction + jsstring :=
  match o with
  | Rejected msg => inr msg
  | Responded r =>
      if ok r then
        match json_data r with
        | Resolves data => inl data
        | Rejects msg => inr msg
        end
      else
        match text r with
        | Resolves errorText => inr (httpErrorOnFetch (status r) errorText)
        | Rejects msg => inr msg
        end
  end.

(** The state [fetchTransactions] leaves when the List request settles with
    outcome [o]. *)
Definition afterList (o : FetchOutcome) (s : AppState) : AppState :=
  match listOutcome o with
  | inl data =>
      apply_setter (setLoading false)
        (apply_setter (setTransactions data) (apply_setter (setLoading true) s))
  | inr msg =>
      apply_setter (setLoading false)
        (apply_setter (setTransactions [])
           (apply_setter (setShowMessage true)
              (apply_setter (setMessage (fetchUserMessage msg))
                 (apply_setter (setLoading true) s))))
  end.

(** The check of lines 88-91 and 121-124 on the outcome of a mutating
    request: [None] when the request succeeded, else the message of the
    error thrown. *)
Definition mutationError (o : FetchOutcome) : option jsstring :=
  match o with
  | Rejected msg => Some msg
  | Responded r =>
      if ok r then None
      else
        match json_error r with
        | Resolves error => Some (httpErrorOnMutation (status r) error)
        | Rejects msg => Some msg
        end
  end.

(** The input checks of lines 66 and 72. *)
Definition validInput (description amount : jsstring) : bool :=
  truthy (trim description) &&
  negb (isNaN (parseFloat amount)) && negb (leb (parseFloat amount) zero).

Definition addBody (description amount type uid : jsstring) : AddBody :=
  {| body_description := trim description;
     body_amount := parseFloat amount;
     body_type := type;
     body_userId := uid |}.

(** The form fields after a successful Add (lines 95-99 and 109). *)
Definition afterAdded (s : AppState) : AppState :=
  apply_setter (setLoading false)
    (apply_setter (setShowMessage true)
       (apply_setter (setMessage msgAdded)
          (apply_setter (setType (str "expense"))
             (apply_setter (setAmount [])
                (apply_setter (setDescription []) s))))).

(** An environment that answers from a fixed script, whatever is asked;
    when the script is exhausted the connection fails. *)
Definition scripted (w : list FetchOutcome) (_ : Request)
    : FetchOutcome * list FetchOutcome :=
  match w with
  | o :: w' => (o, w')
  | [] => (Rejected (str "Failed to fetch"), [])
  end.

(** The body [{"error":"db down"}] of the scenario of section 8. *)
Definition dbDownBody : jsstring :=
  str "{" ++ quote ++ str "error" ++ quote ++ str ":" ++
  quote ++ str "db down" ++ quote ++ str "}".

(** A mutating request that fails: no connection or a status outside
    200-299. *)
Definition mutationFails (o : FetchOutcome) : Prop :=
  match o with
  | Rejected _ => True
  | Responded r => ok r = false
  end.

(** The amount is a positive number for [parseFloat]. *)
Definition positiveAmount (amount : jsstring) : Prop :=
  isNaN (parseFloat amount) = false /\ leb (parseFloat amount) zero = false.

(** The description is blank after trimming. *)
Definition blank (description : jsstring) : Prop := trim description = [].

(** ** The rest of the view *)

(** [MessageBox] (lines 155-177): nothing while [showMessage] is false, else
    the notice text; both of its buttons call [setShowMessage(false)]. *)
Definition MessageBox (s : AppState) : option jsstring :=
  if showMessage s then Some (message s) else None.

(** The label of the Add button (line 238). *)
Definition addButtonLabel (s : AppState) : jsstring :=
  if loading s then str "Adding..." else str "Add Transaction".

(** The texts shown above the history when the list is empty (lines
    265-270): two independent conditions, rendered one after the other. *)
Definition emptyStateTexts (s : AppState) : list jsstring :=
  (if loading s && (length (transactions s) =? 0)%nat
   then [str "Loading transactions..."] else []) ++
  (if negb (loading s) && (length (transactions s) =? 0)%nat
   then [str "No transactions recorded yet. Add one above!"] else []).

(** One entry of the history (lines 272-305): its key, its description, its
    amount text, whether it is drawn as an income (green) or as an expense
    (red), and the label and state of its delete button.  The date and
    time texts depend on the locale and are left out. *)
Record Row : Type := {
  row_key : jsstring;
  row_description : jsstring;
  row_amount : option jsstring;
  row_income : bool;
  row_deleteLabel : jsstring;
  row_deleteDisabled : bool
}.

Definition rows (s : AppState) : list Row :=
  List.map (fun t =>
    {| row_key := tx_id t;
       row_description := tx_description t;
       row_amount := dollars (parseFloatOf (tx_amount t));
       row_income := eqb (tx_type t) (str "income");
       row_deleteLabel := str "Delete " ++ tx_description t;
       row_deleteDisabled := loading s |}) (transactions s).

(** ** Predicates on programs and numbers *)

(** Every request [p] can make, whatever the outcomes, satisfies [P]. *)
Fixpoint all_requests (P : Request -> Prop) (p : prog unit) : Prop :=
  match p with
  | Ret _ => True
  | Throw _ => True
  | Update _ k => all_requests P k
  | Fetch r k => P r /\ forall o, all_requests P (k o)
  end.

(** A request made on behalf of user [uid]: a List is the List of [uid],
    and a body carries [uid]. *)
Definition scoped (uid : jsstring) (r : Request) : Prop :=
  (method r = GET -> r = listRequest uid) /\
  (forall b, body r = Some b -> body_userId b = uid).

(** A suspended handler all of whose requests, the outstanding one and the
    later ones, are made on behalf of [uid]. *)
Definition acts_for (uid : jsstring) (q : Pending) : Prop :=
  scoped uid (request q) /\ forall o, all_requests (scoped uid) (resume q o).

(** A number that is not negative: [NaN], a zero of sign plus, a positive
    number or plus infinity. *)
Definition unsigned (x : number) : Prop :=
  match x with
  | S754_nan | S754_zero false | S754_infinity false
  | S754_finite false _ _ => True
  | _ => False
  end.

(** The form fields of a state. *)
Definition form (s : AppState) : jsstring * jsstring * jsstring :=
  (description s, amount s, type s).

(** ** Sample values *)

(** An idle state: the first List has completed with an empty list. *)
Definition idleState : AppState :=
  apply_setter (setLoading false) (initialState (str "user_1_abc")).

(** A transaction of type [ty] and amount [a]. *)
Definition sampleOf (ty : jsstring) (a : AmountValue) : Transaction :=
  {| tx_id := str "1"; tx_description := str "Sample"; tx_amount := a;
     tx_type := ty; tx_timestamp := 0; tx_userId := str "u" |}.

Definition emptyResponse (st : N) : Response :=
  {| status := st; text := Resolves [];
     json_data := Resolves []; json_error := Resolves None |}.

Definition errorResponse (st : N) (body : jsstring) (error : option jsstring)
    : Response :=
  {| status := st; text := Resolves body;
     json_data := Rejects (str "Unexpected token");
     json_error := Resolves error |}.

(** * Properties *)

(** ** Strings *)

Lemma startsWith_app (n r : jsstring) : startsWith (n ++ r) n = true.
Proof.
  induction n as [|c n IH]; [reflexivity|].
  simpl. now rewrite N.eqb_refl, IH.
Qed.

Lemma includes_nil_needle (s : jsstring) : includes s [] = true.
Proof. destruct s; reflexivity. Qed.

Lemma includes_app_r (p s n : jsstring) :
  includes s n = true -> includes (p ++ s) n = true.
Proof.
  intros H. induction p as [|c p IH]; [exact H|].
  simpl. rewrite IH. apply orb_true_r.
Qed.

Lemma includes_infix (p n r : jsstring) : includes (p ++ n ++ r) n = true.
Proof.
  apply includes_app_r.
  destruct (n ++ r) eqn:E; cbn [includes]; now rewrite <- E, startsWith_app.
Qed.

Lemma includes_refl (s : jsstring) : includes s s = true.
Proof.
  pose proof (includes_infix [] s []) as H. now rewrite app_nil_r in H.
Qed.

(** Trimming: what [trimStart] returns is empty or starts with a character
    that is not white space, and trimming twice is trimming once. *)
Lemma trimStart_head (s : jsstring) :
  match trimStart s with
  | [] => True
  | c :: _ => is_whitespace c = false
  end.
Proof.
  induction s as [|c s IH]; [exact I|].
  cbn [trimStart]. destruct (is_whitespace c) eqn:E; [exact IH | exact E].
Qed.

Lemma trimStart_snoc (l : jsstring) (c : N) :
  is_whitespace c = false -> trimStart (l ++ [c]) = trimStart l ++ [c].
Proof.
  intros Hc. induction l as [|a l IH]; simpl.
  - now rewrite Hc.
  - destruct (is_whitespace a); [exact IH | reflexivity].
Qed.

Lemma trimStart_idempotent (s : jsstring) : trimStart (trimStart s) = trimStart s.
Proof.
  pose proof (trimStart_head s) as H.
  destruct (trimStart s) as [|c r]; [reflexivity|].
  cbn [trimStart]. now rewrite H.
Qed.

Lemma trimEnd_idempotent (s : jsstring) : trimEnd (trimEnd s) = trimEnd s.
Proof. unfold trimEnd. now rewrite rev_involutive, trimStart_idempotent. Qed.

Lemma trimStart_trimEnd (s : jsstring) :
  trimStart (trimEnd (trimStart s)) = trimEnd (trimStart s).
Proof.
  pose proof (trimStart_head s) as H.
  destruct (trimStart s) as [|c r]; [reflexivity|].
  unfold trimEnd. cbn [rev]. rewrite trimStart_snoc by exact H.
  rewrite rev_app_distr. simpl. now rewrite H.
Qed.

Lemma trim_idempotent (s : jsstring) : trim (trim s) = trim s.
Proof. unfold trim. now rewrite trimStart_trimEnd, trimEnd_idempotent. Qed.

Lemma parseFloat_empty : parseFloat [] = NaN.
Proof. reflexivity. Qed.

(** ** Running composed programs *)

Section Running.

Context {W : Type}.
Variable serve : W -> Request -> FetchOutcome * W.

Lemma run_bind {A B : Type} (p : prog A) (f : A -> prog B) s w :
  run serve (bind p f) s w =
  let r := run serve p s w in
  match result r with
  | inl a =>
      let r' := run serve (f a) (final r) (world r) in
      {| result := result r'; final := final r'; world := world r';
         calls := calls r ++ calls r' |}
  | inr msg =>
      {| result := inr msg; final := final r; world := world r;
         calls := calls r |}
  end.
Proof.
  revert s w. induction p as [a|msg|u k IH|r k IH]; intros s w; simpl.
  - now destruct (run serve (f a) s w).
  - reflexivity.
  - apply IH.
  - destruct (serve w r) as [o w']. rewrite IH.
    destruct (run serve (k o) s w') as [[a|msg] fin wo cs]; reflexivity.
Qed.

Lemma run_tryCatch {A : Type} (p : prog A) (h : jsstring -> prog A) s w :
  run serve (tryCatch p h) s w =
  let r := run serve p s w in
  match result r with
  | inl a => r
  | inr msg =>
      let r' := run serve (h msg) (final r) (world r) in
      {| result := result r'; final := final r'; world := world r';
         calls := calls r ++ calls r' |}
  end.
Proof.
  revert s w. induction p as [a|msg|u k IH|r k IH]; intros s w; simpl.
  - reflexivity.
  - now destruct (run serve (h msg) s w).
  - apply IH.
  - destruct (serve w r) as [o w']. rewrite IH.
    destruct (run serve (k o) s w') as [[a|msg] fin wo cs]; reflexivity.
Qed.

Lemma run_finally {A : Type} (p : prog A) (u : Setter) s w :
  run serve (finally p u) s w =
  let r := run serve p s w in
  {| result := result r; final := apply_setter u (final r);
     world := world r; calls := calls r |}.
Proof.
  revert s w. induction p as [a|msg|v k IH|r k IH]; intros s w; simpl.
  - reflexivity.
  - reflexivity.
  - apply IH.
  - destruct (serve w r) as [o w']. now rewrite IH.
Qed.

(** [fetchTransactions] makes one call, never throws, and leaves the state
    [afterList] describes. *)
Lemma run_fetchTransactions uid s w :
  run serve (fetchTransactions uid) s w =
  {| result := inl tt;
     final := afterList (fst (serve w (listRequest uid))) s;
     world := snd (serve w (listRequest uid));
     calls := [listRequest uid] |}.
Proof.
  unfold fetchTransactions, afterList, listOutcome.
  cbn [bind set run]. rewrite run_finally, run_tryCatch.
  cbn [bind fetch run].
  destruct (serve w (listRequest uid)) as [[msg|r] w']; cbn [fst snd]; [reflexivity|].
  cbn [bind]. destruct (ok r); cbn [negb].
  - destruct (json_data r) as [data|msg]; reflexivity.
  - destruct (text r) as [errorText|msg]; reflexivity.
Qed.

End Running.

(** ** The handlers, outcome by outcome *)

Section Handlers.

Context {W : Type}.
Variable serve : W -> Request -> FetchOutcome * W.

Lemma validInput_amount d a : validInput d a = true -> truthy a = true.
Proof.
  unfold validInput. destruct a; [|reflexivity].
  rewrite parseFloat_empty. cbn. now rewrite andb_false_r.
Qed.

(** A rejected input: no call, a notice, nothing else touched. *)
Lemma run_handleAdd_invalid d a ty uid s w :
  validInput d a = false ->
  run serve (handleAddTransaction d a ty uid) s w =
  {| result := inl tt;
     final := apply_setter (setShowMessage true)
                (apply_setter
                   (setMessage
                      (if truthy (trim d) && truthy a then msgPositiveAmount
                       else msgBothRequired)) s);
     world := w;
     calls := [] |}.
Proof.
  intros Hv. unfold handleAddTransaction, validInput in *.
  destruct (truthy (trim d)); cbn [negb orb andb] in *; [|reflexivity].
  destruct (truthy a); cbn [negb] in *; [|reflexivity].
  destruct (isNaN (parseFloat a)); cbn [negb orb andb] in *; [reflexivity|].
  destruct (leb (parseFloat a) zero); [reflexivity|discriminate].
Qed.

(** An accepted input: the creation request is sent; when it fails the
    error is reported, when it succeeds the list is refreshed and the form
    reset. *)
Lemma run_handleAdd_valid d a ty uid s w :
  validInput d a = true ->
  run serve (handleAddTransaction d a ty uid) s w =
  let req := addRequest (addBody d a ty uid) in
  match mutationError (fst (serve w req)) with
  | Some msg =>
      {| result := inl tt;
         final := apply_setter (setLoading false)
                    (apply_setter (setShowMessage true)
                       (apply_setter (setMessage (addUserMessage msg))
                          (apply_setter (setLoading true) s)));
         world := snd (serve w req);
         calls := [req] |}
  | None =>
      let r := run serve (fetchTransactions uid)
                 (apply_setter (setLoading true) s) (snd (serve w req)) in
      {| result := inl tt; final := afterAdded (final r); world := world r;
         calls := req :: calls r |}
  end.
Proof.
  intros Hv. pose proof (validInput_amount _ _ Hv) as Ha.
  unfold validInput in Hv. apply andb_prop in Hv as [Hv Hpos].
  apply andb_prop in Hv as [Hd Hnan].
  apply negb_true_iff in Hnan, Hpos.
  unfold handleAddTransaction. rewrite Hd, Ha, Hnan, Hpos. cbn [negb orb].
  cbn [bind set run]. rewrite run_finally, run_tryCatch.
  fold (addBody d a ty uid).
  cbn [bind fetch run].
  destruct (serve w (addRequest (addBody d a ty uid))) as [[msg|r] w1];
    cbn [fst snd mutationError bind run result final world calls].
  - reflexivity.
  - destruct (ok r); cbn [negb bind].
    + rewrite run_bind, run_fetchTransactions. reflexivity.
    + destruct (json_error r); reflexivity.
Qed.

Lemma run_handleDelete uid id s w :
  run serve (handleDeleteTransaction uid id) s w =
  let req := deleteRequest id in
  match mutationError (fst (serve w req)) with
  | Some msg =>
      {| result := inl tt;
         final := apply_setter (setLoading false)
                    (apply_setter (setShowMessage true)
                       (apply_setter (setMessage (deleteUserMessage msg))
                          (apply_setter (setLoading true) s)));
         world := snd (serve w req);
         calls := [req] |}
  | None =>
      let r := run serve (fetchTransactions uid)
                 (apply_setter (setLoading true) s) (snd (serve w req)) in
      {| result := inl tt;
         final := apply_setter (setLoading false)
                    (apply_setter (setShowMessage true)
                       (apply_setter (setMessage msgDeleted) (final r)));
         world := world r;
         calls := req :: calls r |}
  end.
Proof.
  unfold handleDeleteTransaction.
  cbn [bind set run]. rewrite run_finally, run_tryCatch.
  cbn [bind fetch run].
  destruct (serve w (deleteRequest id)) as [[msg|r] w1];
    cbn [fst snd mutationError bind run result final world calls].
  - reflexivity.
  - destruct (ok r); cbn [negb bind].
    + rewrite run_bind, run_fetchTransactions. reflexivity.
    + destruct (json_error r); reflexivity.
Qed.

End Handlers.

Lemma mutationFails_error o : mutationFails o -> exists msg, mutationError o = Some msg.
Proof.
  destruct o as [msg|r]; cbn; [eauto|].
  intros ->. destruct (json_error r); eauto.
Qed.

Lemma transactions_afterList_failed o s msg :
  listOutcome o = inr msg ->
  afterList o s =
  apply_setter (setLoading false)
    (apply_setter (setTransactions [])
       (apply_setter (setShowMessage true)
          (apply_setter (setMessage (fetchUserMessage msg))
             (apply_setter (setLoading true) s)))).
Proof. unfold afterList. now intros ->. Qed.

(** ** Aggregates *)

Lemma sumFrom_fold ty l acc :
  sumFrom acc ty l =
  fold_left (fun sum t => add sum (parseFloatOf (tx_amount t)))
    (List.filter (fun t => eqb (tx_type t) ty) l) acc.
Proof.
  revert acc. induction l as [|t l IH]; intros acc; [reflexivity|].
  cbn [sumFrom List.filter]. destruct (eqb (tx_type t) ty); cbn [fold_left]; apply IH.
Qed.

(** ** Whole numbers in binary64

    An integer below 2^53 in magnitude is a number, and sums and differences
    of such integers that stay below 2^53 are computed without rounding. *)

Section BinaryIntegers.
Local Open Scope Z_scope.

Lemma digits2_pos_spec (p : positive) :
  2 ^ (Zpos (digits2_pos p) - 1) <= Zpos p < 2 ^ Zpos (digits2_pos p).
Proof.
  induction p as [p IH|p IH|]; cbn [digits2_pos].
  - rewrite Pos2Z.inj_succ. replace (Z.succ (Zpos (digits2_pos p)) - 1) with (Z.succ (Zpos (digits2_pos p) - 1)) by lia.
    rewrite !Z.pow_succ_r by lia. lia.
  - rewrite Pos2Z.inj_succ. replace (Z.succ (Zpos (digits2_pos p)) - 1) with (Z.succ (Zpos (digits2_pos p) - 1)) by lia.
    rewrite !Z.pow_succ_r by lia. lia.
  - cbn. lia.
Qed.

Lemma digits2_unique (x a b : Z) :
  0 < a -> 0 < b ->
  2 ^ (a - 1) <= x < 2 ^ a -> 2 ^ (b - 1) <= x < 2 ^ b -> a = b.
Proof.
  intros Ha Hb [La Ua] [Lb Ub].
  destruct (Z.lt_trichotomy a b) as [H|[H|H]]; [|exact H|].
  - assert (2 ^ a <= 2 ^ (b - 1)) by (apply Z.pow_le_mono_r; lia). lia.
  - assert (2 ^ b <= 2 ^ (a - 1)) by (apply Z.pow_le_mono_r; lia). lia.
Qed.

Lemma digits2_pos_shift (M m : positive) (n : Z) :
  0 <= n -> Zpos M = Zpos m * 2 ^ n ->
  Zpos (digits2_pos M) = Zpos (digits2_pos m) + n.
Proof.
  intros Hn HM.
  pose proof (digits2_pos_spec M) as HsM. pose proof (digits2_pos_spec m) as Hsm.
  apply (digits2_unique (Zpos M)); try lia.
  rewrite HM. replace (Zpos (digits2_pos m) + n - 1) with ((Zpos (digits2_pos m) - 1) + n) by lia.
  rewrite !Z.pow_add_r by lia.
  assert (0 < 2 ^ n) by (apply Z.pow_pos_nonneg; lia).
  split; [apply Z.mul_le_mono_nonneg_r; lia | apply Z.mul_lt_mono_pos_r; lia].
Qed.

Lemma pow2_pos (n : Z) : 0 <= n -> exists q : positive, 2 ^ n = Zpos q.
Proof.
  intros Hn. assert (H : 0 < 2 ^ n) by (apply Z.pow_pos_nonneg; lia).
  destruct (2 ^ n) as [|q|q]; try lia. now exists q.
Qed.

Lemma iter_shr_exact (n : positive) : forall M m : positive,
  Zpos M = Zpos m * 2 ^ Zpos n ->
  SpecFloat.iter_pos shr_1 n (rec0 (Zpos M)) = rec0 (Zpos m).
Proof.
  induction n as [n IH|n IH|]; intros M m HM; cbn [SpecFloat.iter_pos].
  - assert (E : Zpos n~1 = Z.succ (Zpos n + Zpos n)) by lia. rewrite E in HM.
    rewrite Z.pow_succ_r, Z.pow_add_r in HM by lia.
    destruct (pow2_pos (Zpos n)) as [q Hq]; [lia|]. rewrite Hq in HM.
    destruct M as [M'|M'|]; try lia.
    cbn [rec0 shr_1 orb]. fold (rec0 (Zpos M')).
    rewrite (IH M' (m * q)%positive) by (rewrite Hq, Pos2Z.inj_mul; lia).
    apply IH. now rewrite Hq, Pos2Z.inj_mul.
  - assert (E : Zpos n~0 = Zpos n + Zpos n) by lia. rewrite E in HM.
    rewrite Z.pow_add_r in HM by lia.
    destruct (pow2_pos (Zpos n)) as [q Hq]; [lia|]. rewrite Hq in HM.
    rewrite (IH M (m * q)%positive) by (rewrite Hq, Pos2Z.inj_mul; lia).
    apply IH. now rewrite Hq, Pos2Z.inj_mul.
  - change (2 ^ 1) with 2 in HM. destruct M as [M'|M'|]; try lia.
    cbn. unfold rec0. do 2 f_equal. lia.
Qed.

Lemma fexp_eq (x : Z) : -1021 <= x -> fexp prec emax x = x - 53.
Proof. intros H. unfold fexp, emin, prec, emax. lia. Qed.

(** A 53-bit mantissa with an exponent in range is kept as it is. *)
Lemma binary_round_aux_canonical sx (m : positive) (e : Z) :
  Zpos (digits2_pos m) = 53 -> -1074 <= e <= 971 ->
  binary_round_aux prec emax sx (Zpos m) e loc_Exact = S754_finite sx m e.
Proof.
  intros Hd He. unfold binary_round_aux, shr_fexp. cbn [Zdigits2 shr_record_of_loc].
  rewrite Hd, fexp_eq by lia. replace (53 + e - 53 - e) with 0 by lia.
  cbn [shr shr_m loc_of_shr_record round_nearest_even Zdigits2].
  rewrite Hd, fexp_eq by lia. replace (53 + e - 53 - e) with 0 by lia.
  cbn [shr shr_m]. unfold emax, prec. destruct (e <=? 1024 - 53) eqn:E; [reflexivity|].
  apply Z.leb_gt in E. lia.
Qed.

(** A longer mantissa whose extra low bits are zero loses them exactly. *)
Lemma binary_round_aux_shift sx (M m : positive) (e : Z) (n : positive) :
  Zpos M = Zpos m * 2 ^ Zpos n ->
  Zpos (digits2_pos m) = 53 -> -1074 <= e + Zpos n <= 971 ->
  binary_round_aux prec emax sx (Zpos M) e loc_Exact = S754_finite sx m (e + Zpos n).
Proof.
  intros HM Hd He.
  pose proof (digits2_pos_shift M m (Zpos n) ltac:(lia) HM) as HdM.
  unfold binary_round_aux, shr_fexp. cbn [Zdigits2 shr_record_of_loc].
  rewrite HdM, Hd, fexp_eq by lia.
  replace (53 + Zpos n + e - 53 - e) with (Zpos n) by lia.
  cbn [shr]. fold (rec0 (Zpos M)). rewrite (iter_shr_exact n M m HM).
  cbn [rec0 shr_m loc_of_shr_record round_nearest_even Zdigits2].
  rewrite Hd, fexp_eq by lia.
  replace (53 + (e + Zpos n) - 53 - (e + Zpos n)) with 0 by lia.
  cbn [shr shr_m]. unfold emax, prec.
  destruct (e + Zpos n <=? 1024 - 53) eqn:E; [reflexivity|].
  apply Z.leb_gt in E. lia.
Qed.

Lemma digits_le_53 (p : positive) : Zpos p < 2 ^ 53 -> Zpos (digits2_pos p) <= 53.
Proof.
  intros Hp. pose proof (digits2_pos_spec p) as [L _].
  destruct (Z_le_gt_dec (Zpos (digits2_pos p)) 53) as [H|H]; [exact H|].
  assert (2 ^ 53 <= 2 ^ (Zpos (digits2_pos p) - 1)) by (apply Z.pow_le_mono_r; lia).
  lia.
Qed.

(** Rounding an integer below 2^53, however it is written as mantissa and
    exponent, gives its 53-bit form. *)
Lemma binary_round_integer sx (M p : positive) (s : Z) :
  0 <= s -> Zpos M = Zpos p * 2 ^ s -> Zpos p < 2 ^ 53 ->
  exists mc,
    Zpos mc = Zpos p * 2 ^ (53 - Zpos (digits2_pos p)) /\
    binary_round prec emax sx M (- s) =
      S754_finite sx mc (Zpos (digits2_pos p) - 53).
Proof.
  intros Hs HM Hp. pose proof (digits_le_53 p Hp) as Hd.
  set (d := Zpos (digits2_pos p)) in *.
  assert (Hd1 : 1 <= d) by (unfold d; lia).
  pose proof (digits2_pos_shift M p s Hs HM) as HdM. fold d in HdM.
  unfold binary_round. rewrite HdM.
  replace (d + s + - s) with d by lia. rewrite fexp_eq by lia.
  unfold shl_align.
  destruct (d - 53 - - s) as [|n|k] eqn:E.
  - exists M. split; [rewrite HM; f_equal; f_equal; lia|].
    replace (d - 53) with (- s) by lia.
    apply binary_round_aux_canonical; lia.
  - destruct (pow2_pos (53 - d)) as [q Hq]; [lia|].
    exists (p * q)%positive. split; [now rewrite Pos2Z.inj_mul, Hq|].
    replace (d - 53) with (- s + Zpos n) by lia.
    apply binary_round_aux_shift.
    + rewrite Pos2Z.inj_mul, <- Hq, HM, <- Z.mul_assoc, <- Z.pow_add_r by lia.
      f_equal. f_equal. lia.
    + rewrite (digits2_pos_shift (p * q) p (53 - d)); [fold d; lia | lia |].
      now rewrite Pos2Z.inj_mul, Hq.
    + lia.
  - exists (Pos.iter xO M k).
    assert (Hv : Zpos (Pos.iter xO M k) = Zpos p * 2 ^ (53 - d)).
    { change (Pos.iter xO M k) with (shift_pos k M).
      rewrite shift_pos_correct, Z.pow_pos_fold, HM.
      rewrite Z.mul_comm, <- Z.mul_assoc, <- Z.pow_add_r by lia.
      f_equal. f_equal. lia. }
    split; [exact Hv|].
    apply binary_round_aux_canonical; [|lia].
    rewrite (digits2_pos_shift _ p (53 - d)); [fold d; lia | lia | exact Hv].
Qed.

Lemma binary_normalize_integer (M s k : Z) :
  0 <= s -> M = k * 2 ^ s -> Z.abs k < 2 ^ 53 ->
  binary_normalize prec emax M (- s) false = of_Z k.
Proof.
  intros Hs HM Hk. assert (H2 : 0 < 2 ^ s) by (apply Z.pow_pos_nonneg; lia).
  unfold of_Z. destruct k as [|p|p].
  - subst M. reflexivity.
  - destruct M as [|M'|M']; try lia. cbn [binary_normalize].
    destruct (binary_round_integer false M' p s Hs HM) as (mc & Hmc & ->); [lia|].
    destruct (binary_round_integer false p p 0) as (mc' & Hmc' & E); [lia|lia|lia|].
    change (- 0) with 0 in E. rewrite E. f_equal. lia.
  - destruct M as [|M'|M']; try lia. cbn [binary_normalize].
    destruct (binary_round_integer true M' p s Hs) as (mc & Hmc & ->); [lia|lia|].
    destruct (binary_round_integer true p p 0) as (mc' & Hmc' & E); [lia|lia|lia|].
    change (- 0) with 0 in E. rewrite E. f_equal. lia.
Qed.

(** The number of a non-zero integer below 2^53 in magnitude. *)
Lemma of_Z_finite (k : Z) :
  k <> 0 -> Z.abs k < 2 ^ 53 ->
  exists m e,
    of_Z k = S754_finite (k <? 0) m e /\ -52 <= e <= 0 /\
    Zpos m = Z.abs k * 2 ^ (- e).
Proof.
  intros Hk0 Hk. unfold of_Z.
  destruct k as [|p|p]; [congruence| |]; cbn [binary_normalize Z.ltb Z.compare Z.abs].
  - destruct (binary_round_integer false p p 0) as (mc & Hmc & E); [lia|lia|lia|].
    change (- 0) with 0 in E. pose proof (digits_le_53 p Hk) as Hd.
    exists mc, (Zpos (digits2_pos p) - 53). split; [exact E|]. split; [lia|].
    rewrite Hmc. f_equal. f_equal. lia.
  - destruct (binary_round_integer true p p 0) as (mc & Hmc & E); [lia|lia|lia|].
    change (- 0) with 0 in E. pose proof (digits_le_53 p Hk) as Hd.
    exists mc, (Zpos (digits2_pos p) - 53). split; [exact E|]. split; [lia|].
    rewrite Hmc. f_equal. f_equal. lia.
Qed.

Lemma shl_align_value (m : positive) (e ez : Z) :
  ez <= e -> Zpos (fst (shl_align m e ez)) = Zpos m * 2 ^ (e - ez).
Proof.
  intros H. unfold shl_align. destruct (ez - e) as [|n|k] eqn:E; cbn [fst].
  - replace (e - ez) with 0 by lia. lia.
  - lia.
  - change (Pos.iter xO m k) with (shift_pos k m).
    rewrite shift_pos_correct, Z.pow_pos_fold. replace (e - ez) with (Zpos k) by lia. lia.
Qed.

(** A mantissa aligned to a lower exponent still stands for the same
    integer. *)
Lemma aligned_integer (k : Z) (m : positive) (e ez : Z) :
  Zpos m = k * 2 ^ (- e) -> e <= 0 -> ez <= e ->
  Zpos (fst (shl_align m e ez)) = k * 2 ^ (- ez).
Proof.
  intros Hm He Hz. rewrite shl_align_value, Hm by lia.
  rewrite <- Z.mul_assoc, <- Z.pow_add_r by lia. f_equal. f_equal. lia.
Qed.

(** Sums and differences of whole numbers are exact below 2^53. *)
Lemma add_of_Z (a b : Z) :
  0 <= a -> 0 <= b -> a + b < 2 ^ 53 -> add (of_Z a) (of_Z b) = of_Z (a + b).
Proof.
  intros Ha Hb Hs.
  destruct (Z.eq_dec a 0) as [->|Ha0].
  - destruct (Z.eq_dec b 0) as [->|Hb0]; [reflexivity|].
    destruct (of_Z_finite b) as (mb & eb & Eb & _); [lia|lia|].
    rewrite Z.add_0_l, Eb. reflexivity.
  - destruct (of_Z_finite a) as (ma & ea & Ea & Hea & Hma); [lia|lia|].
    destruct (Z.eq_dec b 0) as [->|Hb0].
    + rewrite Z.add_0_r, Ea. reflexivity.
    + destruct (of_Z_finite b) as (mb & eb & Eb & Heb & Hmb); [lia|lia|].
      rewrite Ea, Eb.
      replace (a <? 0) with false by (symmetry; apply Z.ltb_ge; lia).
      replace (b <? 0) with false by (symmetry; apply Z.ltb_ge; lia).
      unfold add. cbn [SFadd cond_Zopp].
      rewrite Z.abs_eq in Hma, Hmb by lia.
      rewrite (aligned_integer a), (aligned_integer b) by (try eassumption; lia).
      replace (Z.min ea eb) with (- - Z.min ea eb) at 3 by lia.
      apply binary_normalize_integer; [lia | lia | lia].
Qed.

Lemma sub_of_Z (a b : Z) :
  0 <= a < 2 ^ 53 -> 0 <= b < 2 ^ 53 -> sub (of_Z a) (of_Z b) = of_Z (a - b).
Proof.
  intros Ha Hb.
  destruct (Z.eq_dec a 0) as [->|Ha0].
  - destruct (Z.eq_dec b 0) as [->|Hb0]; [reflexivity|].
    destruct b as [|p|p]; try lia.
    change (0 - Z.pos p) with (Z.neg p). unfold of_Z.
    cbn [binary_normalize].
    destruct (binary_round_integer false p p 0) as (m1 & H1 & E1); [lia|lia|lia|].
    destruct (binary_round_integer true p p 0) as (m2 & H2 & E2); [lia|lia|lia|].
    change (- 0) with 0 in E1, E2. rewrite E1, E2.
    assert (m1 = m2) as -> by lia. reflexivity.
  - destruct (of_Z_finite a) as (ma & ea & Ea & Hea & Hma); [lia|lia|].
    destruct (Z.eq_dec b 0) as [->|Hb0].
    + rewrite Z.sub_0_r, Ea. reflexivity.
    + destruct (of_Z_finite b) as (mb & eb & Eb & Heb & Hmb); [lia|lia|].
      rewrite Ea, Eb.
      replace (a <? 0) with false by (symmetry; apply Z.ltb_ge; lia).
      replace (b <? 0) with false by (symmetry; apply Z.ltb_ge; lia).
      unfold sub. cbn [SFsub cond_Zopp].
      rewrite Z.abs_eq in Hma, Hmb by lia.
      rewrite (aligned_integer a), (aligned_integer b) by (try eassumption; lia).
      replace (Z.min ea eb) with (- - Z.min ea eb) at 3 by lia.
      apply binary_normalize_integer; [lia | lia | lia].
Qed.

Lemma exactValue_of_Z (k : Z) :
  Z.abs k < 2 ^ 53 -> exactValue (of_Z k) = Some (k * 2 ^ 1074).
Proof.
  intros Hk. destruct (Z.eq_dec k 0) as [->|Hk0]; [reflexivity|].
  destruct (of_Z_finite k Hk0 Hk) as (m & e & -> & He & Hm).
  cbn [exactValue]. f_equal.
  replace (2 ^ 1074) with (2 ^ (- e) * 2 ^ (e + 1074))
    by (rewrite <- Z.pow_add_r by lia; f_equal; lia).
  rewrite Z.mul_assoc. f_equal.
  destruct (k <? 0) eqn:E; cbn [cond_Zopp]; rewrite Hm.
  - apply Z.ltb_lt in E. rewrite Z.abs_neq by lia. lia.
  - apply Z.ltb_ge in E. rewrite Z.abs_eq by lia. lia.
Qed.

Lemma amountOf_whole (k : Z) (t : Transaction) :
  wholeAmount k (tx_amount t) -> 0 <= k /\ amountOf t = of_Z k.
Proof.
  intros [Hk [E|(s & E & P)]]; (split; [lia|]); unfold amountOf; rewrite E.
  - destruct (Z.eq_dec k 0) as [->|Hk0]; [reflexivity|].
    destruct (of_Z_finite k) as (m & e & -> & _); [lia|lia|]. reflexivity.
  - exact P.
Qed.

Lemma wholeSum_nonneg k ty l :
  Forall (fun t => wholeAmount (k t) (tx_amount t)) l -> 0 <= wholeSum k ty l.
Proof.
  induction 1 as [|t l [Ht _] _ IH]; cbn [wholeSum]; [lia|].
  destruct (eqb (tx_type t) ty); lia.
Qed.

Lemma sumFrom_whole k ty l : forall a,
  Forall (fun t => wholeAmount (k t) (tx_amount t)) l ->
  0 <= a -> a + wholeSum k ty l < 2 ^ 53 ->
  sumFrom (of_Z a) ty l = of_Z (a + wholeSum k ty l).
Proof.
  induction l as [|t l IH]; intros a Hl Ha Hs; cbn [sumFrom wholeSum] in *.
  - now rewrite Z.add_0_r.
  - inversion Hl as [|? ? Ht Hl']; subst.
    pose proof (wholeSum_nonneg k ty l Hl') as Hn.
    destruct (amountOf_whole _ _ Ht) as [Hk E].
    destruct (eqb (tx_type t) ty).
    + rewrite E, add_of_Z by lia. rewrite IH by (trivial; lia). f_equal. lia.
    + now apply IH.
Qed.

Lemma exactSum_whole k ty l :
  Forall (fun t => wholeAmount (k t) (tx_amount t)) l ->
  exactSumOfType ty l = Some (wholeSum k ty l * 2 ^ 1074).
Proof.
  induction 1 as [|t l Ht Hl IH]; cbn [exactSumOfType wholeSum]; [reflexivity|].
  destruct (eqb (tx_type t) ty); [|exact IH].
  destruct (amountOf_whole _ _ Ht) as [Hk E]. destruct Ht as [Hb _].
  rewrite E, exactValue_of_Z, IH by lia. f_equal. lia.
Qed.

End BinaryIntegers.

(** C1 (amended). For every state, the income total of a render is the sum
    of the amounts of the transactions of type income in the current list,
    the expense total is the sum of the amounts of those of type expense,
    and the balance is the income total minus the expense total, where sum
    and difference are those of the program's numbers, taken in list order
    from zero and rounded at every step; the texts displayed are these
    three values with two decimals.  All of them are functions of the
    current list alone, so every render recomputes the same values from
    it.  When every amount in the list is a whole number [k t] between 0
    and 2^53 and the whole amounts of each type add up to less than 2^53,
    nothing is rounded: the two totals are the numbers of the integer sums,
    the balance is the number of their difference, and the three values
    are the exact sums and the exact difference of the amounts. *)
Theorem aggregates_from_current_list (s : AppState) (k : Transaction -> Z) :
  let l := transactions s in
  let income := sumOfType (str "income") l in
  let expenses := sumOfType (str "expense") l in
  (view_totalIncome (render s) = income /\
   view_totalExpenses (render s) = expenses /\
   view_balance (render s) = sub income expenses /\
   view_balance (render s) =
     sub (view_totalIncome (render s)) (view_totalExpenses (render s)) /\
   view_summary (render s) =
     (dollars income, dollars expenses, dollars (sub income expenses))) /\
  (Forall (fun t => wholeAmount (k t) (tx_amount t)) l ->
   (wholeSum k (str "income") l < 2 ^ 53)%Z ->
   (wholeSum k (str "expense") l < 2 ^ 53)%Z ->
   (view_totalIncome (render s) = of_Z (wholeSum k (str "income") l) /\
    view_totalExpenses (render s) = of_Z (wholeSum k (str "expense") l) /\
    view_balance (render s) =
      of_Z (wholeSum k (str "income") l - wholeSum k (str "expense") l)) /\
   (exactValue (view_totalIncome (render s)) = exactSumOfType (str "income") l /\
    exactValue (view_totalExpenses (render s)) = exactSumOfType (str "expense") l /\
    exactValue (view_balance (render s)) = exactBalance l)).
Proof.
  intros l income expenses.
  assert (HI : view_totalIncome (render s) = income)
    by (unfold render, totalIncome, income, sumOfType; cbn [view_totalIncome];
        now rewrite sumFrom_fold).
  assert (HE : view_totalExpenses (render s) = expenses)
    by (unfold render, totalExpenses, expenses, sumOfType; cbn [view_totalExpenses];
        now rewrite sumFrom_fold).
  assert (HB : view_balance (render s) =
               sub (view_totalIncome (render s)) (view_totalExpenses (render s)))
    by reflexivity.
  split.
  - repeat split; trivial.
    + rewrite <- HI, <- HE. exact HB.
    + rewrite <- HI, <- HE. reflexivity.
  - intros Hl Hi He.
    pose proof (wholeSum_nonneg k (str "income") l Hl) as Ni.
    pose proof (wholeSum_nonneg k (str "expense") l Hl) as Ne.
    assert (Ei : income = of_Z (wholeSum k (str "income") l))
      by (unfold income, sumOfType; change zero with (of_Z 0);
          rewrite (sumFrom_whole k) by (trivial; lia); reflexivity).
    assert (Ee : expenses = of_Z (wholeSum k (str "expense") l))
      by (unfold expenses, sumOfType; change zero with (of_Z 0);
          rewrite (sumFrom_whole k) by (trivial; lia); reflexivity).
    assert (Eb : view_balance (render s) =
                 of_Z (wholeSum k (str "income") l - wholeSum k (str "expense") l))
      by (rewrite HB, HI, HE, Ei, Ee; apply sub_of_Z; lia).
    split; [repeat split; congruence|].
    rewrite HI, HE, Eb, Ei, Ee. unfold exactBalance.
    rewrite !(exactSum_whole k) by trivial.
    rewrite !exactValue_of_Z by lia. repeat split. f_equal. lia.
Qed.

(** One income of 100, sent as a number, and one expense sent as the string
    40.00: the totals are 100 and 40, the balance is 60, exactly, and the
    summary shows $100.00, $40.00 and $60.00. *)
Lemma aggregates_from_current_list_witness :
  let l := [ sampleOf (str "income") (AmountNumber (of_Z 100));
             sampleOf (str "expense") (AmountString (str "40.00")) ] in
  let s := apply_setter (setTransactions l) idleState in
  (view_totalIncome (render s) = of_Z 100 /\
   view_totalExpenses (render s) = of_Z 40 /\
   view_balance (render s) = of_Z 60) /\
  exactValue (view_balance (render s)) = exactBalance l /\
  view_summary (render s) =
    (Some (str "$100.00"), Some (str "$40.00"), Some (str "$60.00")).
Proof.
  intros l s.
  pose (k := fun t : Transaction => if eqb (tx_type t) (str "income") then 100%Z else 40%Z).
  destruct (aggregates_from_current_list s k) as [_ H].
  destruct H as [H [_ [_ E]]].
  - apply List.Forall_cons; [|apply List.Forall_cons; [|apply List.Forall_nil]].
    + split; [vm_compute; split; congruence|]. left. reflexivity.
    + split; [vm_compute; split; congruence|].
      right. exists (str "40.00"). split; [reflexivity|]. vm_compute. reflexivity.
  - vm_compute. reflexivity.
  - vm_compute. reflexivity.
  - split; [exact H|]. split; [exact E|]. vm_compute. reflexivity.
Defined.

(** Amounts with cents are not whole numbers, and the exact reading fails
    for them.  With an income of 0.30 and expenses of 0.10 and 0.20 the
    expense total is not the exact sum of the two amounts; it is not the
    income total either, and the summary shows $0.30, $0.30 and a balance
    of $-0.00.  The total also depends on the order of the list: 0.10,
    0.20, 0.30 and the same three amounts in reverse order give different
    expense totals. *)
Lemma totals_not_exact :
  let l := [ sampleOf (str "income") (AmountString (str "0.30"));
             sampleOf (str "expense") (AmountString (str "0.10"));
             sampleOf (str "expense") (AmountString (str "0.20")) ] in
  let l' := [ sampleOf (str "expense") (AmountString (str "0.10"));
              sampleOf (str "expense") (AmountString (str "0.20"));
              sampleOf (str "expense") (AmountString (str "0.30")) ] in
  (exactValue (totalExpenses l) <> exactSumOfType (str "expense") l /\
   totalIncome l = parseFloat (str "0.30") /\
   totalExpenses l <> parseFloat (str "0.30") /\
   view_summary (render (apply_setter (setTransactions l) idleState)) =
     (Some (str "$0.30"), Some (str "$0.30"), Some (str "$-0.00"))) /\
  totalExpenses (rev l') <> totalExpenses l'.
Proof.
  repeat split; try (vm_compute; congruence).
Qed.

(** The scenario of section 8: one income of 100 and one expense of 40 are
    displayed as totals $100.00 and $40.00 and balance $60.00, whether the
    server sends the amounts as numbers or as strings. *)
Example aggregates_scenario :
  let l := [ {| tx_id := str "1"; tx_description := str "Scholarship";
                tx_amount := AmountNumber (of_Z 100); tx_type := str "income";
                tx_timestamp := 0; tx_userId := str "u" |};
             {| tx_id := str "2"; tx_description := str "Books";
                tx_amount := AmountString (str "40.00"); tx_type := str "expense";
                tx_timestamp := 1; tx_userId := str "u" |} ] in
  totalIncome l = of_Z 100 /\ totalExpenses l = of_Z 40 /\ balance l = of_Z 60 /\
  view_summary (render (apply_setter (setTransactions l) idleState)) =
    (Some (str "$100.00"), Some (str "$40.00"), Some (str "$60.00")).
Proof. vm_compute. repeat split. Qed.

(** ** Add: local validation *)

Lemma blank_truthy d : blank d <-> truthy (trim d) = false.
Proof. unfold blank. destruct (trim d); cbn; split; intros; congruence. Qed.

Lemma validInput_spec d a :
  validInput d a = true <-> ~ blank d /\ positiveAmount a.
Proof.
  unfold validInput, positiveAmount. rewrite blank_truthy.
  rewrite !andb_true_iff, !negb_true_iff, not_false_iff_true. tauto.
Qed.

Lemma validInput_false d a :
  blank d \/ ~ positiveAmount a -> validInput d a = false.
Proof.
  intros H. destruct (validInput d a) eqn:E; [|reflexivity].
  apply validInput_spec in E. tauto.
Qed.

(** C2. When the description is blank after trimming or the amount is not a
    positive number for [parseFloat], Add makes no network call, leaves the
    transaction list (and the environment) unchanged and shows one of the two
    validation messages; in particular, for the amount [-5] (with a
    description that is not blank) Add is rejected in this way with the
    message "Please enter a valid positive amount.". *)
Theorem add_rejects_invalid_input {W : Type}
    (serve : W -> Request -> FetchOutcome * W)
    (ty uid : jsstring) (s : AppState) (w : W) :
  (forall d a,
     blank d \/ ~ positiveAmount a ->
     let r := run serve (handleAddTransaction d a ty uid) s w in
     calls r = [] /\ world r = w /\
     transactions (final r) = transactions s /\
     showMessage (final r) = true /\
     (message (final r) = msgBothRequired \/
      message (final r) = msgPositiveAmount)) /\
  (forall d,
     ~ blank d ->
     let r := run serve (handleAddTransaction d (str "-5") ty uid) s w in
     calls r = [] /\ world r = w /\
     transactions (final r) = transactions s /\
     showMessage (final r) = true /\
     message (final r) = msgPositiveAmount).
Proof.
  split.
  - intros d a H r. subst r.
    rewrite (run_handleAdd_invalid _ _ _ _ _ _ _ (validInput_false _ _ H)).
    cbn [calls world final]. repeat split.
    cbn. destruct (truthy (trim d) && truthy a); auto.
  - intros d Hd r. subst r.
    assert (Hv : validInput d (str "-5") = false).
    { apply validInput_false. right. intros [_ E]. vm_compute in E. discriminate E. }
    rewrite (run_handleAdd_invalid _ _ _ _ _ _ _ Hv).
    cbn [calls world final]. repeat split.
    cbn. destruct (truthy (trim d)) eqn:E; [reflexivity|].
    exfalso. apply Hd. now apply blank_truthy.
Qed.

Lemma add_rejects_invalid_input_witness :
  (~ blank (str "Books")) /\
  let r := run scripted
             (handleAddTransaction (str "Books") (str "-5") (str "expense") (str "u"))
             idleState [] in
  calls r = [] /\ message (final r) = msgPositiveAmount.
Proof.
  assert (H : ~ blank (str "Books")) by (unfold blank; vm_compute; discriminate).
  split; [exact H|].
  destruct (add_rejects_invalid_input scripted (str "expense") (str "u") idleState [])
    as [_ Hneg].
  destruct (Hneg (str "Books") H) as (Hc & _ & _ & _ & Hm).
  split; [exact Hc | exact Hm].
Defined.

(** ** Add and Delete: the refresh *)


(** C9. When the mutating request of Add or Delete succeeds and the List
    refresh that follows fails (no connection, a status outside 200-299 or
    a body that is not JSON, with error message [msg]), the refresh returns
    normally having set its error notice, and the handler replaces that
    notice by the success message; the list is left empty and, for Add, the
    form fields are reset. *)
Theorem refresh_failure_is_masked {W : Type}
    (serve : W -> Request -> FetchOutcome * W)
    (uid : jsstring) (s : AppState) (w w1 w2 : W)
    (resp : Response) (o : FetchOutcome) (msg : jsstring) :
  ok resp = true ->
  serve w1 (listRequest uid) = (o, w2) ->
  listOutcome o = inr msg ->
  (forall s',
      let l := run serve (fetchTransactions uid) s' w1 in
      result l = inl tt /\ message (final l) = fetchUserMessage msg) /\
  (forall d a ty,
      ~ blank d -> positiveAmount a ->
      serve w (addRequest (addBody d a ty uid)) = (Responded resp, w1) ->
      let r := run serve (handleAddTransaction d a ty uid) s w in
      result r = inl tt /\
      message (final r) = msgAdded /\ showMessage (final r) = true /\
      transactions (final r) = [] /\
      description (final r) = [] /\ amount (final r) = [] /\
      type (final r) = str "expense" /\ loading (final r) = false) /\
  (forall id,
      serve w (deleteRequest id) = (Responded resp, w1) ->
      let r := run serve (handleDeleteTransaction uid id) s w in
      result r = inl tt /\
      message (final r) = msgDeleted /\ showMessage (final r) = true /\
      transactions (final r) = [] /\ loading (final r) = false).
Proof.
  intros Hok Hl Hf. split; [|split].
  - intros s' l. subst l. rewrite run_fetchTransactions, Hl. cbn [fst result final].
    rewrite (transactions_afterList_failed _ _ _ Hf). split; reflexivity.
  - intros d a ty Hd Ha Hs r. subst r.
    rewrite run_handleAdd_valid by (apply validInput_spec; auto).
    cbv zeta. rewrite Hs. cbn [fst snd mutationError]. rewrite Hok.
    rewrite run_fetchTransactions, Hl. cbn [fst result final].
    rewrite (transactions_afterList_failed _ _ _ Hf). repeat split.
  - intros id Hs r. subst r. rewrite run_handleDelete.
    cbv zeta. rewrite Hs. cbn [fst snd mutationError]. rewrite Hok.
    rewrite run_fetchTransactions, Hl. cbn [fst result final].
    rewrite (transactions_afterList_failed _ _ _ Hf). repeat split.
Qed.

(** C10. When the mutating request of Add or Delete itself fails (the
    connection fails or the status is outside 200-299), the transaction
    list is unchanged and the mutating request is the only call made: the
    error is thrown before List is invoked. *)
Theorem mutation_failure_keeps_list {W : Type}
    (serve : W -> Request -> FetchOutcome * W)
    (uid : jsstring) (s : AppState) (w : W) :
  (forall d a ty,
      ~ blank d -> positiveAmount a ->
      mutationFails (fst (serve w (addRequest (addBody d a ty uid)))) ->
      let r := run serve (handleAddTransaction d a ty uid) s w in
      transactions (final r) = transactions s /\
      calls r = [addRequest (addBody d a ty uid)] /\
      exists msg, message (final r) = addUserMessage msg) /\
  (forall id,
      mutationFails (fst (serve w (deleteRequest id))) ->
      let r := run serve (handleDeleteTransaction uid id) s w in
      transactions (final r) = transactions s /\
      calls r = [deleteRequest id] /\
      exists msg, message (final r) = deleteUserMessage msg).
Proof.
  split.
  - intros d a ty Hd Ha Hf r. subst r.
    rewrite run_handleAdd_valid by (apply validInput_spec; auto).
    cbv zeta. destruct (mutationFails_error _ Hf) as [msg ->].
    cbn [final calls]. repeat split. exists msg. reflexivity.
  - intros id Hf r. subst r. rewrite run_handleDelete.
    cbv zeta. destruct (mutationFails_error _ Hf) as [msg ->].
    cbn [final calls]. repeat split. exists msg. reflexivity.
Qed.


Lemma refresh_failure_is_masked_witness :
  let w1 := [Rejected (str "Failed to fetch")] in
  let w := Responded (emptyResponse 200) :: w1 in
  let d := str "Rent" in
  let a := str "450" in
  let del := run scripted (handleDeleteTransaction (str "u") (str "7")) idleState w in
  let add := run scripted (handleAddTransaction d a (str "expense") (str "u")) idleState w in
  (ok (emptyResponse 200) = true /\
   listOutcome (Rejected (str "Failed to fetch")) = inr (str "Failed to fetch") /\
   ~ blank d /\ positiveAmount a) /\
  message (final del) = msgDeleted /\ transactions (final del) = [] /\
  message (final add) = msgAdded /\ transactions (final add) = [] /\
  description (final add) = [].
Proof.
  intros w1 w d a del add.
  assert (Hok : ok (emptyResponse 200) = true) by reflexivity.
  assert (Hl : listOutcome (Rejected (str "Failed to fetch")) = inr (str "Failed to fetch"))
    by reflexivity.
  assert (Hd : ~ blank d) by (unfold blank; vm_compute; discriminate).
  assert (Ha : positiveAmount a) by (split; vm_compute; reflexivity).
  split; [auto|].
  destruct (refresh_failure_is_masked scripted (str "u") idleState w w1 []
              (emptyResponse 200) (Rejected (str "Failed to fetch"))
              (str "Failed to fetch") Hok eq_refl Hl)
    as (_ & Hadd & Hdel).
  destruct (Hdel (str "7") eq_refl) as (_ & Hm & _ & Ht & _).
  destruct (Hadd d a (str "expense") Hd Ha eq_refl)
    as (_ & Hm' & _ & Ht' & Hd' & _).
  repeat split; assumption.
Defined.

Lemma mutation_failure_keeps_list_witness :
  let w := [Responded (errorResponse 500 (str "oops") (Some (str "db down")))] in
  let d := str "Rent" in
  let a := str "450" in
  let del := run scripted (handleDeleteTransaction (str "u") (str "7")) idleState w in
  let add := run scripted (handleAddTransaction d a (str "expense") (str "u")) idleState w in
  (mutationFails (fst (scripted w (deleteRequest (str "7")))) /\
   mutationFails (fst (scripted w (addRequest (addBody d a (str "expense") (str "u"))))) /\
   ~ blank d /\ positiveAmount a) /\
  transactions (final del) = transactions idleState /\
  calls del = [deleteRequest (str "7")] /\
  transactions (final add) = transactions idleState /\
  calls add = [addRequest (addBody d a (str "expense") (str "u"))].
Proof.
  intros w d a del add.
  assert (Hf : mutationFails (fst (scripted w (deleteRequest (str "7")))))
    by reflexivity.
  assert (Hf' : mutationFails
                  (fst (scripted w (addRequest (addBody d a (str "expense") (str "u"))))))
    by reflexivity.
  assert (Hd : ~ blank d) by (unfold blank; vm_compute; discriminate).
  assert (Ha : positiveAmount a) by (split; vm_compute; reflexivity).
  split; [auto|].
  destruct (mutation_failure_keeps_list scripted (str "u") idleState w) as [Hadd Hdel].
  destruct (Hdel (str "7") Hf) as (Ht & Hc & _).
  destruct (Hadd d a (str "expense") Hd Ha Hf') as (Ht' & Hc' & _).
  repeat split; assumption.
Defined.

(** ** List: responses *)

Section ListResponses.

Context {W : Type}.
Variable serve : W -> Request -> FetchOutcome * W.

(** C4 (amended). For every response to List with a status outside 200-299
    the list is cleared and a notice is shown.  When the text
    [HTTP error! Status: <status>. Message: <body text, or No message
    provided.>] contains neither "Failed to fetch" nor "NetworkError", the
    notice is "Error fetching data: " followed by that text, so it contains
    the status and the server-provided error text.  A response with status
    500 and body [{"error":"db down"}] yields a notice containing "db down"
    and an empty list.  For a response with a status in 200-299 whose body
    is JSON, the list is replaced by the response contents verbatim. *)
Theorem list_response_handling
    (uid : jsstring) (s : AppState) (w w' : W) (resp : Response) :
  serve w (listRequest uid) = (Responded resp, w') ->
  let r := run serve (fetchTransactions uid) s w in
  (ok resp = false ->
     transactions (final r) = [] /\ showMessage (final r) = true /\
     (forall errorText,
        text resp = Resolves errorText ->
        isNetworkMessage (httpErrorOnFetch (status resp) errorText) = false ->
        message (final r) =
          str "Error fetching data: " ++ str "HTTP error! Status: " ++
          of_N (status resp) ++ str ". Message: " ++
          or_else errorText (str "No message provided.") /\
        includes (message (final r)) (of_N (status resp)) = true /\
        includes (message (final r))
          (or_else errorText (str "No message provided.")) = true) /\
     (status resp = 500%N -> text resp = Resolves dbDownBody ->
        includes (message (final r)) (str "db down") = true)) /\
  (ok resp = true ->
     forall data, json_data resp = Resolves data ->
       transactions (final r) = data /\ message (final r) = message s /\
       showMessage (final r) = showMessage s).
Proof.
  intros Hs r. subst r. rewrite run_fetchTransactions, Hs. cbn [fst final].
  unfold afterList, listOutcome. split.
  - intros ->. split; [|split; [|split]].
    + destruct (text resp); reflexivity.
    + destruct (text resp); reflexivity.
    + intros errorText -> Hn.
      cbn [apply_setter message]. unfold fetchUserMessage. rewrite Hn.
      unfold httpErrorOnFetch. split; [reflexivity|split].
      * rewrite (app_assoc (str "Error fetching data: ")).
        apply includes_infix.
      * do 4 apply includes_app_r. apply includes_refl.
    + intros -> ->. vm_compute. reflexivity.
  - intros -> data ->. cbn. repeat split.
Qed.

End ListResponses.

(** C4 as stated fails: a server error whose text contains
    "Failed to fetch" is reported as a connection failure, and the notice
    shows neither the server's text nor the HTTP status. *)
Lemma list_error_text_hidden :
  ~ (forall (resp : Response) (s : AppState) (uid : jsstring),
       ok resp = false ->
       let m := message (final (run scripted (fetchTransactions uid) s
                                  [Responded resp])) in
       forall errorText, text resp = Resolves errorText ->
       includes m errorText = true \/ includes m (str "HTTP error") = true).
Proof.
  intros H.
  specialize (H (errorResponse 500 (str "Failed to fetch transactions") None)
                idleState (str "u") eq_refl _ eq_refl).
  vm_compute in H. destruct H; discriminate.
Qed.

Lemma list_response_handling_witness :
  let resp := errorResponse 500 dbDownBody (Some (str "db down")) in
  let r := run scripted (fetchTransactions (str "u")) idleState [Responded resp] in
  scripted [Responded resp] (listRequest (str "u")) = (Responded resp, []) /\
  transactions (final r) = [] /\
  includes (message (final r)) (str "db down") = true.
Proof.
  intros resp r. split; [reflexivity|].
  destruct (list_response_handling scripted (str "u") idleState
              [Responded resp] [] resp eq_refl) as [Hbad _].
  destruct (Hbad eq_refl) as (Ht & _ & _ & Hdb).
  split; [exact Ht|]. apply Hdb; reflexivity.
Defined.

(** ** Transport failures *)

Lemma error_notice_differs (prefix m : jsstring) :
  (exists r, prefix = 69%N :: r) ->
  prefix ++ m <> cannotConnect /\ prefix ++ m <> cannotConnectOnFetch.
Proof. intros [r ->]. split; discriminate. Qed.

(** C8 (amended). For every transport failure during List, Add or Delete
    whose error message contains "Failed to fetch" or "NetworkError", the
    notice is the fixed "Could not connect to the backend server at
    http://localhost:5000/api. ..." message, which names the server
    location; the notice of a failure whose message contains neither phrase
    is "Error ...: " followed by that message, and differs from it. *)
Theorem transport_failure_notice {W : Type}
    (serve : W -> Request -> FetchOutcome * W)
    (uid : jsstring) (s : AppState) (w : W) (msg : jsstring) :
  isNetworkMessage msg = true ->
  (fst (serve w (listRequest uid)) = Rejected msg ->
     message (final (run serve (fetchTransactions uid) s w)) =
     cannotConnectOnFetch) /\
  (forall d a ty,
     ~ blank d -> positiveAmount a ->
     fst (serve w (addRequest (addBody d a ty uid))) = Rejected msg ->
     message (final (run serve (handleAddTransaction d a ty uid) s w)) =
     cannotConnect) /\
  (forall id,
     fst (serve w (deleteRequest id)) = Rejected msg ->
     message (final (run serve (handleDeleteTransaction uid id) s w)) =
     cannotConnect) /\
  includes cannotConnectOnFetch API_BASE_URL = true /\
  includes cannotConnect API_BASE_URL = true /\
  (forall m, isNetworkMessage m = false ->
     fetchUserMessage m = str "Error fetching data: " ++ m /\
     addUserMessage m = str "Error adding transaction: " ++ m /\
     deleteUserMessage m = str "Error deleting transaction: " ++ m /\
     fetchUserMessage m <> cannotConnectOnFetch /\
     addUserMessage m <> cannotConnect /\
     deleteUserMessage m <> cannotConnect).
Proof.
  intros Hn. repeat split.
  - intros Hs. rewrite run_fetchTransactions, Hs. cbn.
    unfold fetchUserMessage. now rewrite Hn.
  - intros d a ty Hd Ha Hs.
    rewrite run_handleAdd_valid by (apply validInput_spec; auto).
    cbv zeta. rewrite Hs. cbn. unfold addUserMessage. now rewrite Hn.
  - intros id Hs. rewrite run_handleDelete.
    cbv zeta. rewrite Hs. cbn. unfold deleteUserMessage. now rewrite Hn.
  - unfold fetchUserMessage. now rewrite H.
  - unfold addUserMessage. now rewrite H.
  - unfold deleteUserMessage. now rewrite H.
  - unfold fetchUserMessage. rewrite H. apply error_notice_differs. now eexists.
  - unfold addUserMessage. rewrite H. apply error_notice_differs. now eexists.
  - unfold deleteUserMessage. rewrite H. apply error_notice_differs. now eexists.
Qed.

(** C8 as stated fails: a connection failure reported by the browser
    as "Load failed" gets the notice of an ordinary error, which does not
    name the server location. *)
Lemma transport_failure_not_distinguished :
  ~ (forall (msg : jsstring) (s : AppState) (uid : jsstring),
       includes
         (message (final (run scripted (fetchTransactions uid) s [Rejected msg])))
         API_BASE_URL = true).
Proof.
  intros H. specialize (H (str "Load failed") idleState (str "u")).
  vm_compute in H. discriminate.
Qed.

Lemma transport_failure_notice_witness :
  let msg := str "Failed to fetch" in
  let r := run scripted (fetchTransactions (str "u")) idleState [Rejected msg] in
  isNetworkMessage msg = true /\
  message (final r) = cannotConnectOnFetch /\
  includes (message (final r)) API_BASE_URL = true.
Proof.
  intros msg r. assert (Hn : isNetworkMessage msg = true) by reflexivity.
  split; [exact Hn|].
  destruct (transport_failure_notice scripted (str "u") idleState
              [Rejected msg] msg Hn) as (Hl & _ & _ & Hi & _).
  split; [exact (Hl eq_refl)|].
  unfold r. rewrite (Hl eq_refl). exact Hi.
Defined.

(** ** Identity provisioner *)

Lemma newUserId_truthy now random36 : truthy (newUserId now random36) = true.
Proof. reflexivity. Qed.

Lemma initUserId_stored (storage : gmap jsstring jsstring) now random36 :
  snd (initUserId storage now random36) !! storageKey =
    Some (fst (initUserId storage now random36)) /\
  truthy (fst (initUserId storage now random36)) = true.
Proof.
  unfold initUserId.
  destruct (storage !! storageKey) as [v|] eqn:E.
  - destruct (truthy v) eqn:T; cbn [fst snd].
    + auto.
    + split; [apply lookup_insert_eq | apply newUserId_truthy].
  - cbn [fst snd]. split; [apply lookup_insert_eq | apply newUserId_truthy].
Qed.

(** C6 (amended). If the storage entry is present and not the empty string,
    initialization returns it and leaves the storage unchanged; if the entry
    is absent or the empty string, a new identifier ("user_", the
    timestamp, "_", seven characters of the random text) is stored under the
    fixed key and returned.  Hence for every storage state, every
    initialization after the first returns the identifier of the first and
    leaves the storage as the first left it. *)
Theorem userId_initialization_idempotent
    (storage : gmap jsstring jsstring) (now now' : N) (random36 random36' : jsstring) :
  (forall v, storage !! storageKey = Some v -> v <> [] ->
     initUserId storage now random36 = (v, storage)) /\
  (storage !! storageKey = None \/ storage !! storageKey = Some [] ->
     initUserId storage now random36 =
     (newUserId now random36,
      <[storageKey := newUserId now random36]> storage)) /\
  initUserId (snd (initUserId storage now random36)) now' random36' =
    initUserId storage now random36.
Proof.
  split; [|split].
  - intros v E Hv. unfold initUserId. rewrite E.
    destruct v; [congruence | reflexivity].
  - intros [E|E]; unfold initUserId; rewrite E; reflexivity.
  - destruct (initUserId_stored storage now random36) as [E T].
    destruct (initUserId storage now random36) as [id st]. cbn [fst snd] in *.
    unfold initUserId. now rewrite E, T.
Qed.

(** C6 as stated fails: an entry that is present but empty is not
    returned; a new identifier replaces it. *)
Lemma empty_stored_userId_replaced :
  ~ (forall (storage : gmap jsstring jsstring) (v : jsstring)
            (now : N) (random36 : jsstring),
       storage !! storageKey = Some v ->
       initUserId storage now random36 = (v, storage)).
Proof.
  intros H.
  specialize (H {[ storageKey := [] ]} [] 1700000000000%N (str "0.4fzyo82mvyr")
                (lookup_singleton_eq _ _)).
  apply (f_equal fst) in H. vm_compute in H. discriminate.
Qed.

Lemma userId_initialization_idempotent_witness :
  let storage : gmap jsstring jsstring := {[ storageKey := str "user_1_abc" ]} in
  (storage !! storageKey = Some (str "user_1_abc") /\ str "user_1_abc" <> []) /\
  initUserId storage 5 (str "0.zzzzzzzzz") = (str "user_1_abc", storage).
Proof.
  intros storage.
  assert (E : storage !! storageKey = Some (str "user_1_abc"))
    by apply lookup_singleton_eq.
  assert (Hv : str "user_1_abc" <> []) by discriminate.
  split; [auto|].
  destruct (userId_initialization_idempotent storage 5 5 (str "0.zzzzzzzzz") [])
    as [Hp _].
  exact (Hp _ E Hv).
Defined.

(** ** Idle, pending, idle *)

Lemma loading_edit u s :
  match u with setLoading _ => False | _ => True end ->
  loading (apply_setter u s) = loading s.
Proof. destruct u; intros H; try reflexivity. destruct H. Qed.

(** One stretch of a bracketing handler ends idle or suspended with the flag
    raised. *)
Lemma advance_brackets p : forall l s,
  brackets p l -> loading s = l ->
  match snd (advance p s) with
  | None => loading (fst (advance p s)) = false
  | Some q =>
      loading (fst (advance p s)) = true /\
      forall o l', brackets (resume q o) l'
  end.
Proof.
  induction p as [a|msg|u k IH|r k IH]; intros l s Hb Hl; cbn in *.
  - congruence.
  - congruence.
  - destruct u; eapply IH; eauto.
  - destruct Hb as [-> Hb]. auto.
Qed.

(** A bracketing handler run to its end leaves the flag lowered, however
    its requests settle. *)
Lemma run_brackets {W : Type} (serve : W -> Request -> FetchOutcome * W) p :
  forall l s w,
  brackets p l -> loading s = l -> loading (final (run serve p s w)) = false.
Proof.
  induction p as [a|msg|u k IH|r k IH]; intros l s w Hb Hl; cbn in *.
  - congruence.
  - congruence.
  - destruct u; eapply IH; eauto.
  - destruct Hb as [-> Hb]. destruct (serve w r) as [o w']. cbn.
    eapply IH; eauto.
Qed.

Lemma brackets_fetchTransactions uid l : brackets (fetchTransactions uid) l.
Proof.
  cbn. split; [reflexivity|].
  intros [msg|r] l'; cbn; [reflexivity|].
  destruct (ok r); cbn.
  - destruct (json_data r); reflexivity.
  - destruct (text r); reflexivity.
Qed.

Lemma brackets_handleAdd d a ty uid : brackets (handleAddTransaction d a ty uid) false.
Proof.
  unfold handleAddTransaction.
  destruct (negb (truthy (trim d)) || negb (truthy a)); [reflexivity|].
  destruct (isNaN (parseFloat a) || leb (parseFloat a) zero); [reflexivity|].
  cbn. split; [reflexivity|].
  intros [msg|r] l'; cbn; [reflexivity|].
  destruct (ok r); cbn.
  - split; [reflexivity|].
    intros [msg|r2] l''; cbn; [reflexivity|].
    destruct (ok r2); cbn.
    + destruct (json_data r2); reflexivity.
    + destruct (text r2); reflexivity.
  - destruct (json_error r); reflexivity.
Qed.

Lemma brackets_handleDelete uid id l : brackets (handleDeleteTransaction uid id) l.
Proof.
  cbn. split; [reflexivity|].
  intros [msg|r] l'; cbn; [reflexivity|].
  destruct (ok r); cbn.
  - split; [reflexivity|].
    intros [msg|r2] l''; cbn; [reflexivity|].
    destruct (ok r2); cbn.
    + destruct (json_data r2); reflexivity.
    + destruct (text r2); reflexivity.
  - destruct (json_error r); reflexivity.
Qed.

(** *** A production build: one request at a time *)

Lemma launch_idle p s :
  brackets p (loading s) ->
  idle_or_pending (launch p {| app := s; pending := [] |}).
Proof.
  intros Hb. pose proof (advance_brackets p _ s Hb eq_refl) as H.
  unfold launch, idle_or_pending. cbn [app pending].
  destruct (advance p s) as [s' [q|]]; exact H.
Qed.

Lemma idle_or_pending_edit c s' :
  loading s' = loading (app c) ->
  idle_or_pending c ->
  idle_or_pending {| app := s'; pending := pending c |}.
Proof.
  unfold idle_or_pending. cbn [app pending]. intros ->. auto.
Qed.

Lemma idle_or_pending_enabled c :
  idle_or_pending c -> loading (app c) = false -> pending c = [].
Proof.
  unfold idle_or_pending. destruct (pending c) as [|p [|q l]]; intros H E.
  - reflexivity.
  - destruct H. congruence.
  - destruct H.
Qed.

Lemma step_invariant c c' : idle_or_pending c -> step c c' -> idle_or_pending c'.
Proof.
  intros Hi Hs. destruct Hs as [c v|c v|c v|c|c He|c t He Ht|c before p after o Hp].
  - now apply idle_or_pending_edit.
  - now apply idle_or_pending_edit.
  - now apply idle_or_pending_edit.
  - now apply idle_or_pending_edit.
  - cbn in He. pose proof (idle_or_pending_enabled c Hi He) as Hp.
    destruct c as [s l]. cbn [app pending] in *. subst l.
    apply launch_idle. rewrite He. apply brackets_handleAdd.
  - cbn in He. pose proof (idle_or_pending_enabled c Hi He) as Hp.
    destruct c as [s l]. cbn [app pending] in *. subst l.
    apply launch_idle. apply brackets_handleDelete.
  - unfold idle_or_pending in Hi. rewrite Hp in Hi.
    destruct before as [|b before].
    + destruct after as [|a after]; [|destruct Hi].
      destruct Hi as [Hl Hb]. cbn [app].
      apply launch_idle. apply Hb.
    + destruct before, after; destruct Hi.
Qed.

Lemma mount_invariant uid :
  truthy uid = true -> idle_or_pending (mount Production uid).
Proof.
  intros Ht. unfold mount. rewrite Ht. cbn [effectRuns launchTimes].
  apply launch_idle. apply brackets_fetchTransactions.
Qed.

Lemma reachable_invariant uid c :
  truthy uid = true -> reachable Production uid c -> idle_or_pending c.
Proof.
  intros Ht. induction 1 as [|c c' _ IH Hs].
  - now apply mount_invariant.
  - exact (step_invariant c c' IH Hs).
Qed.

(** *** Every build: idle once everything has settled *)

Lemma launch_eventually_idle p c :
  brackets p (loading (app c)) ->
  eventually_idle c -> eventually_idle (launch p c).
Proof.
  intros Hb [Hi Hq]. pose proof (advance_brackets p _ (app c) Hb eq_refl) as H.
  unfold launch, eventually_idle.
  destruct (advance p (app c)) as [s' [q|]]; cbn [fst snd app pending enqueue] in *.
  - split.
    + intros E. destruct (pending c); discriminate E.
    + apply Forall_app. split; [exact Hq|]. constructor; [apply H | constructor].
  - split; [intros _; exact H | exact Hq].
Qed.

Lemma step_eventually_idle c c' :
  eventually_idle c -> step c c' -> eventually_idle c'.
Proof.
  intros Hi Hs. destruct Hs as [c v|c v|c v|c|c He|c t He Ht|c before p after o Hp];
    try exact Hi.
  - cbn in He. apply launch_eventually_idle; [|exact Hi].
    rewrite He. apply brackets_handleAdd.
  - apply launch_eventually_idle; [|exact Hi]. apply brackets_handleDelete.
  - destruct Hi as [_ Hq]. rewrite Hp in Hq.
    apply Forall_app in Hq as [Hb Hq]. apply Forall_cons in Hq as [Hk Ha].
    pose proof (advance_brackets (resume p o) _ (app c) (Hk o _) eq_refl) as H.
    unfold launch, eventually_idle. cbn [app pending].
    destruct (advance (resume p o) (app c)) as [s' [q|]];
      cbn [fst snd app pending enqueue] in *.
    + split.
      * intros E. destruct (before ++ after); discriminate E.
      * apply Forall_app. split; [apply Forall_app; auto|].
        constructor; [apply H | constructor].
    + split; [intros _; exact H | apply Forall_app; auto].
Qed.

Lemma mount_eventually_idle b uid :
  truthy uid = true -> eventually_idle (mount b uid).
Proof.
  intros Ht. unfold mount. rewrite Ht.
  assert (H : forall n c, eventually_idle c ->
                eventually_idle (launchTimes n (fetchTransactions uid) c)).
  { induction n as [|n IH]; intros c Hc; [exact Hc|]. cbn [launchTimes].
    apply IH. apply launch_eventually_idle; [|exact Hc].
    apply brackets_fetchTransactions. }
  destruct b; cbn [effectRuns launchTimes].
  - pose proof (mount_invariant uid Ht) as Hm. unfold mount in Hm.
    rewrite Ht in Hm. cbn [effectRuns launchTimes] in Hm.
    unfold idle_or_pending in Hm. unfold eventually_idle.
    destruct (pending (launch (fetchTransactions uid) _)) as [|p [|q l]].
    + split; [auto | constructor].
    + destruct Hm as [_ Hm]. split; [discriminate|]. constructor; [exact Hm | constructor].
    + destruct Hm.
  - cbn [launch advance fetchTransactions bind set app pending enqueue
         apply_setter initialState]. unfold eventually_idle. cbn [app pending].
    split; [discriminate|].
    pose proof (brackets_fetchTransactions uid true) as [_ Hk]. cbn in Hk.
    repeat constructor; exact Hk.
Qed.

Lemma reachable_eventually_idle b uid c :
  truthy uid = true -> reachable b uid c -> eventually_idle c.
Proof.
  intros Ht. induction 1 as [|c c' _ IH Hs].
  - now apply mount_eventually_idle.
  - exact (step_eventually_idle c c' IH Hs).
Qed.

(** C7 (amended). Whatever the storage, the clock and the random text give
    as identifier: in a production build, where the effect runs once at
    mount, at most one request is outstanding in every configuration the
    application can reach (so at most one mutating request is in flight)
    and the Add and Delete controls are disabled exactly while a request
    is outstanding.  In every build, the controls are enabled whenever no
    request is outstanding, and when an outstanding request settles, with
    any outcome and in whatever state, its handler is suspended again with
    the controls disabled or ends with them enabled, and run to its end it
    leaves them enabled however its later requests settle.  Responses are
    those of [Response]: the body of a successful List is an array of
    transactions, as the API gives it. *)
Theorem idle_pending_idle (b : Build)
    (storage : gmap jsstring jsstring) (now : N) (random36 : jsstring)
    (c : Config) :
  reachable b (fst (initUserId storage now random36)) c ->
  (b = Production ->
     length (pending c) <= 1 /\
     length (mutatingInFlight c) <= 1 /\
     (view_controlsDisabled (render (app c)) = true <-> pending c <> [])) /\
  (pending c = [] -> view_controlsDisabled (render (app c)) = false) /\
  (forall p o s, In p (pending c) ->
     view_controlsDisabled (render (fst (advance (resume p o) s))) =
       match snd (advance (resume p o) s) with
       | Some _ => true
       | None => false
       end /\
     forall (W : Type) (serve : W -> Request -> FetchOutcome * W) (w : W),
       view_controlsDisabled
         (render (final (run serve (resume p o) s w))) = false).
Proof.
  intros Hr.
  pose proof (proj2 (initUserId_stored storage now random36)) as Ht.
  pose proof (reachable_eventually_idle _ _ _ Ht Hr) as [Hidle Hq].
  cbn [render view_controlsDisabled]. split; [|split].
  - intros ->. pose proof (reachable_invariant _ _ Ht Hr) as Hi.
    unfold idle_or_pending, mutatingInFlight in *.
    destruct (pending c) as [|p [|q l]].
    + split; [cbn; lia|]. split; [cbn; lia|].
      rewrite Hi. split; [discriminate | congruence].
    + destruct Hi as [Hl _]. cbn [length List.map List.filter].
      split; [lia|]. split; [destruct (isMutating (request p)); cbn; lia|].
      split; [discriminate | auto].
    + destruct Hi.
  - exact Hidle.
  - intros p o s Hin.
    assert (Hb : brackets (resume p o) (loading s)).
    { rewrite List.Forall_forall in Hq. apply (Hq p Hin). }
    split.
    + pose proof (advance_brackets _ _ s Hb eq_refl) as H.
      destruct (snd (advance (resume p o) s)); [apply H | exact H].
    + intros W serve w. eapply run_brackets; eauto.
Qed.

Lemma idle_pending_idle_witness :
  let c := mount Production (fst (initUserId ∅ 1700000000000 (str "0.4fzyo82mvyr"))) in
  reachable Production (fst (initUserId ∅ 1700000000000 (str "0.4fzyo82mvyr"))) c /\
  length (pending c) <= 1 /\
  (view_controlsDisabled (render (app c)) = true <-> pending c <> []).
Proof.
  intros c.
  assert (Hr : reachable Production
                 (fst (initUserId ∅ 1700000000000 (str "0.4fzyo82mvyr"))) c)
    by apply reachable_mount.
  split; [exact Hr|].
  destruct (idle_pending_idle Production ∅ 1700000000000 (str "0.4fzyo82mvyr") c Hr)
    as (Hp & _).
  destruct (Hp eq_refl) as (Hlen & _ & Hd).
  split; [exact Hlen | exact Hd].
Defined.

Lemma step_settleFirst o c : pending c <> [] -> step c (settleFirst o c).
Proof.
  unfold settleFirst. destruct (pending c) as [|p after] eqn:E; [congruence|].
  intros _. apply (step_settle c [] p after o). exact E.
Qed.

Lemma step_fillForm d a c : step c (fillForm d a c) \/
  exists c1, step c c1 /\ step c1 (fillForm d a c).
Proof.
  right. exists {| app := apply_setter (setDescription d) (app c);
                   pending := pending c |}.
  split; [apply step_edit_description|].
  apply (step_edit_amount {| app := apply_setter (setDescription d) (app c);
                             pending := pending c |} a).
Qed.

Lemma reachable_fillForm b uid d a c :
  reachable b uid c -> reachable b uid (fillForm d a c).
Proof.
  intros Hr. destruct (step_fillForm d a c) as [H|(c1 & H1 & H2)].
  - eapply reachable_step; eauto.
  - eapply reachable_step; [eapply reachable_step|]; eauto.
Qed.

(** C7 as stated fails in a development build: with the second run of the
    effect two List requests are outstanding after mount.  When the first
    has settled the controls are enabled while the second is outstanding;
    an Add started then has its request in flight when the second List
    settles and enables the controls again, so that a second Add puts two
    creation requests in flight. *)
Lemma strict_mode_two_requests :
  let o := Responded (emptyResponse 200) in
  let c1 := settleFirst o (mount Development (str "u")) in
  let c2 := clickAdd (settleFirst o
              (clickAdd (fillForm (str "Rent") (str "450") c1))) in
  (reachable Development (str "u") c1 /\
   List.map (fun p => method (request p)) (pending c1) = [GET] /\
   view_controlsDisabled (render (app c1)) = false) /\
  (reachable Development (str "u") c2 /\
   List.map (fun p => method (request p)) (pending c2) = [POST; POST] /\
   length (mutatingInFlight c2) = 2).
Proof.
  intros o c1 c2.
  assert (R1 : reachable Development (str "u") c1).
  { eapply reachable_step; [apply reachable_mount|].
    apply step_settleFirst. discriminate. }
  split; [split; [exact R1 | split; reflexivity]|].
  split; [|split; reflexivity].
  eapply reachable_step; [|apply step_click_add; reflexivity].
  eapply reachable_step; [|apply step_settleFirst; discriminate].
  eapply reachable_step; [|apply step_click_add; reflexivity].
  apply reachable_fillForm. exact R1.
Qed.

(** ** Add followed by List, against the store *)

Lemma eqb_refl (a : jsstring) : eqb a a = true.
Proof. unfold eqb. now apply bool_decide_eq_true. Qed.

Lemma eqb_eq (a b : jsstring) : eqb a b = true -> a = b.
Proof. unfold eqb. now intros H%bool_decide_eq_true. Qed.

Lemma stripPrefix_app (p s : jsstring) : Store.stripPrefix p (p ++ s) = Some s.
Proof.
  induction p as [|c p IH]; [reflexivity|].
  cbn. now rewrite N.eqb_refl.
Qed.

(** The store answers a List with the user's transactions and keeps them. *)
Lemma serve_list srv uid :
  Store.serve srv (listRequest uid) =
  (Store.success 200 (Store.ofUser uid (Store.stored srv)), Store.tick srv).
Proof.
  unfold Store.serve, listRequest. cbn [method body url].
  now rewrite app_assoc, stripPrefix_app.
Qed.

(** The store answers a creation request with a success status exactly when
    it has appended the transaction made from the body. *)
Lemma serve_add_ok srv b resp srv1 :
  Store.serve srv (addRequest b) = (Responded resp, srv1) ->
  ok resp = true ->
  Store.validBody b = true /\
  Store.stored srv1 = Store.stored srv ++ [Store.created srv b].
Proof.
  unfold Store.serve, addRequest. cbn [method body url].
  rewrite eqb_refl. destruct (Store.validBody b).
  - intros [= <- <-] _. auto.
  - intros [= <- <-]. discriminate.
Qed.

Lemma ofUser_snoc uid l t :
  tx_userId t = uid -> Store.ofUser uid (l ++ [t]) = Store.ofUser uid l ++ [t].
Proof.
  intros <-. unfold Store.ofUser. rewrite List.filter_app. cbn.
  now rewrite eqb_refl.
Qed.

(** The store accepts every body the client makes from a valid input whose
    amount is finite, so the success assumed below does occur. *)
Lemma store_accepts_valid_input srv d a ty uid :
  ~ blank d -> Store.isFinitePositive (parseFloat a) = true ->
  ty = str "income" \/ ty = str "expense" ->
  exists resp srv1,
    Store.serve srv (addRequest (addBody d a ty uid)) = (Responded resp, srv1) /\
    ok resp = true.
Proof.
  intros Hd Ha Hty.
  unfold Store.serve, addRequest. cbn [method body url]. rewrite eqb_refl.
  assert (Hv : Store.validBody (addBody d a ty uid) = true).
  { unfold Store.validBody, addBody.
    cbn [body_description body_amount body_type].
    rewrite trim_idempotent, Ha.
    destruct (truthy (trim d)) eqn:E.
    - destruct Hty as [-> | ->]; reflexivity.
    - exfalso. apply Hd. now apply blank_truthy. }
  rewrite Hv. eauto.
Qed.

(** C3. Against the store modelled from section 6: for every valid input
    (description not blank, amount a positive number for [parseFloat], type
    income or expense), when the creation request succeeds, the list shown
    after Add, and again after a further List, is the list a List gave
    before with exactly one entry added, whose description is the trimmed
    description, whose amount is the parsed amount and whose type and user
    are those submitted. *)
Theorem add_then_list_one_more
    (srv srv1 : Store.Server) (s : AppState) (d a ty uid : jsstring)
    (resp : Response) :
  ~ blank d -> positiveAmount a ->
  ty = str "income" \/ ty = str "expense" ->
  Store.serve srv (addRequest (addBody d a ty uid)) = (Responded resp, srv1) ->
  ok resp = true ->
  let before := transactions (final (run Store.serve (fetchTransactions uid) s srv)) in
  let added := run Store.serve (handleAddTransaction d a ty uid) s srv in
  let listed := run Store.serve (fetchTransactions uid) (final added) (world added) in
  exists t,
    transactions (final added) = before ++ [t] /\
    transactions (final listed) = before ++ [t] /\
    tx_description t = trim d /\
    tx_amount t = AmountNumber (parseFloat a) /\
    tx_type t = ty /\
    tx_userId t = uid.
Proof.
  intros Hd Ha Hty Hs Hok before added listed. subst before added listed.
  destruct (serve_add_ok _ _ _ _ Hs Hok) as [_ Hst].
  exists (Store.created srv (addBody d a ty uid)).
  rewrite run_handleAdd_valid by (apply validInput_spec; auto).
  cbv zeta. rewrite Hs. cbn [fst snd mutationError]. rewrite Hok.
  rewrite !run_fetchTransactions, !serve_list. cbn [fst snd final world].
  cbn [Store.tick Store.stored]. rewrite Hst, ofUser_snoc by reflexivity.
  repeat split.
Qed.

Lemma add_then_list_one_more_witness :
  let d := str "  Books " in
  let a := str "12.50" in
  let ty := str "expense" in
  let uid := str "user_1_abc" in
  let b := addBody d a ty uid in
  let added := run Store.serve (handleAddTransaction d a ty uid) idleState Store.empty in
  (~ blank d /\ positiveAmount a /\ (ty = str "income" \/ ty = str "expense") /\
   ok (emptyResponse 201) = true) /\
  exists t, transactions (final added) = [] ++ [t] /\ tx_description t = str "Books".
Proof.
  intros d a ty uid b added.
  assert (Hd : ~ blank d) by (unfold blank; vm_compute; discriminate).
  assert (Ha : positiveAmount a) by (split; vm_compute; reflexivity).
  assert (Hty : ty = str "income" \/ ty = str "expense") by (right; reflexivity).
  assert (Hok : ok (emptyResponse 201) = true) by reflexivity.
  split; [auto|].
  destruct (add_then_list_one_more Store.empty
              (snd (Store.serve Store.empty (addRequest b))) idleState d a ty uid
              {| status := 201; text := Resolves [];
                 json_data := Resolves [Store.created Store.empty b];
                 json_error := Resolves None |}
              Hd Ha Hty eq_refl eq_refl)
    as (t & Ht & _ & Hdesc & _).
  exists t. split; [exact Ht|]. rewrite Hdesc. vm_compute. reflexivity.
Defined.

(** * Further properties *)

(** ** The handlers in every environment *)

Section EveryEnvironment.

Context {W : Type}.
Variable serve : W -> Request -> FetchOutcome * W.

(** X1. None of the three handlers lets an error escape: whatever the
    environment answers and whatever the state and the inputs, each returns
    normally (every rejection and every thrown error is caught). *)
Theorem handlers_return_normally (s : AppState) (w : W) (d a ty uid id : jsstring) :
  result (run serve (fetchTransactions uid) s w) = inl tt /\
  result (run serve (handleAddTransaction d a ty uid) s w) = inl tt /\
  result (run serve (handleDeleteTransaction uid id) s w) = inl tt.
Proof.
  split; [|split].
  - now rewrite run_fetchTransactions.
  - destruct (validInput d a) eqn:Hv.
    + rewrite run_handleAdd_valid by exact Hv. cbv zeta.
      now destruct (mutationError _).
    + now rewrite run_handleAdd_invalid by exact Hv.
  - rewrite run_handleDelete. cbv zeta. now destruct (mutationError _).
Qed.

(** X2. The calls of each operation, exactly: List makes one GET for the
    user; Add makes none for an invalid input, else the POST, followed by
    the GET only when the POST succeeded; Delete makes the DELETE, followed
    by the GET only when it succeeded.  Nothing is retried. *)
Theorem calls_of_each_operation (s : AppState) (w : W) (d a ty uid id : jsstring) :
  calls (run serve (fetchTransactions uid) s w) = [listRequest uid] /\
  calls (run serve (handleAddTransaction d a ty uid) s w) =
    (if validInput d a then
       match mutationError (fst (serve w (addRequest (addBody d a ty uid)))) with
       | Some _ => [addRequest (addBody d a ty uid)]
       | None => [addRequest (addBody d a ty uid); listRequest uid]
       end
     else []) /\
  calls (run serve (handleDeleteTransaction uid id) s w) =
    match mutationError (fst (serve w (deleteRequest id))) with
    | Some _ => [deleteRequest id]
    | None => [deleteRequest id; listRequest uid]
    end.
Proof.
  split; [|split].
  - now rewrite run_fetchTransactions.
  - destruct (validInput d a) eqn:Hv.
    + rewrite run_handleAdd_valid by exact Hv. cbv zeta.
      destruct (mutationError _); [reflexivity|].
      now rewrite run_fetchTransactions.
    + now rewrite run_handleAdd_invalid by exact Hv.
  - rewrite run_handleDelete. cbv zeta.
    destruct (mutationError _); [reflexivity|].
    now rewrite run_fetchTransactions.
Qed.

(** X3. Which validation message Add shows: the check of the description
    and of the empty amount comes first, so "Please enter both description
    and amount." is shown exactly when the description is blank or the
    amount is empty, and "Please enter a valid positive amount." exactly
    when neither holds and the amount does not parse to a positive number. *)
Theorem validation_message (s : AppState) (w : W) (d a ty uid : jsstring) :
  validInput d a = false ->
  let r := run serve (handleAddTransaction d a ty uid) s w in
  (blank d \/ a = [] -> message (final r) = msgBothRequired) /\
  (~ blank d -> a <> [] -> message (final r) = msgPositiveAmount) /\
  final r = apply_setter (setShowMessage true)
              (apply_setter (setMessage (message (final r))) s).
Proof.
  intros Hv r. subst r. rewrite run_handleAdd_invalid by exact Hv.
  cbn [final]. split; [|split].
  - intros [Hb | ->].
    + apply blank_truthy in Hb. cbn. now rewrite Hb.
    + cbn. now rewrite andb_false_r.
  - intros Hb Ha. cbn.
    destruct (truthy (trim d)) eqn:E.
    + destruct a; [congruence | reflexivity].
    + exfalso. apply Hb. now apply blank_truthy.
  - reflexivity.
Qed.

(** X4. Only a successful Add changes the form fields.  List and Delete
    leave description, amount and type as they were, whatever happens; so
    does an Add that is rejected or whose request fails, so the user's
    input is kept for another try. *)
Theorem form_fields_kept (s : AppState) (w : W) (d a ty uid id : jsstring) :
  form (final (run serve (fetchTransactions uid) s w)) = form s /\
  form (final (run serve (handleDeleteTransaction uid id) s w)) = form s /\
  form (final (run serve (handleAddTransaction d a ty uid) s w)) =
    (if validInput d a then
       match mutationError (fst (serve w (addRequest (addBody d a ty uid)))) with
       | Some _ => form s
       | None => ([], [], str "expense")
       end
     else form s).
Proof.
  assert (Hl : forall s' w', form (final (run serve (fetchTransactions uid) s' w')) = form s').
  { intros s' w'. rewrite run_fetchTransactions. cbn [final].
    unfold afterList. now destruct (listOutcome _). }
  split; [apply Hl|]. split.
  - rewrite run_handleDelete. cbv zeta.
    destruct (mutationError _); [reflexivity|].
    cbn [final]. unfold form. cbn. apply (Hl (apply_setter (setLoading true) s)).
  - destruct (validInput d a) eqn:Hv.
    + rewrite run_handleAdd_valid by exact Hv. cbv zeta.
      now destruct (mutationError _).
    + now rewrite run_handleAdd_invalid by exact Hv.
Qed.

(** X5. Add and Delete always end with the notice box open: for an invalid
    input it shows a validation message, after a success the confirmation,
    after a failure the error notice.  No outcome is passed over in
    silence. *)
Theorem notice_always_shown (s : AppState) (w : W) (d a ty uid id : jsstring) :
  (exists m, MessageBox (final (run serve (handleAddTransaction d a ty uid) s w)) = Some m /\
     (m = msgBothRequired \/ m = msgPositiveAmount \/ m = msgAdded \/
      exists e, mutationError (fst (serve w (addRequest (addBody d a ty uid)))) = Some e /\
                m = addUserMessage e)) /\
  (exists m, MessageBox (final (run serve (handleDeleteTransaction uid id) s w)) = Some m /\
     (m = msgDeleted \/
      exists e, mutationError (fst (serve w (deleteRequest id))) = Some e /\
                m = deleteUserMessage e)).
Proof.
  split.
  - destruct (validInput d a) eqn:Hv.
    + rewrite run_handleAdd_valid by exact Hv. cbv zeta.
      destruct (mutationError _) as [e|] eqn:E; cbn [final].
      * exists (addUserMessage e). split; [reflexivity|]. right. right. right. eauto.
      * exists msgAdded. split; [reflexivity|]. auto.
    + rewrite run_handleAdd_invalid by exact Hv. cbn [final].
      eexists. split; [reflexivity|].
      destruct (truthy (trim d) && truthy a); auto.
  - rewrite run_handleDelete. cbv zeta.
    destruct (mutationError _) as [e|] eqn:E; cbn [final].
    + exists (deleteUserMessage e). split; [reflexivity|]. eauto.
    + exists msgDeleted. split; [reflexivity|]. auto.
Qed.

End EveryEnvironment.

(** ** What Add sends *)

Lemma trim_head (s : jsstring) (c : N) (r : jsstring) :
  trim s = c :: r -> is_whitespace c = false.
Proof.
  intros E. pose proof (trimStart_head (trim s)) as H.
  unfold trim in H at 1. rewrite trimStart_trimEnd in H.
  fold (trim s) in H. now rewrite E in H.
Qed.

Lemma trim_last (s : jsstring) (p : jsstring) (c : N) :
  trim s = p ++ [c] -> is_whitespace c = false.
Proof.
  unfold trim, trimEnd. intros E.
  apply (f_equal (@rev N)) in E. rewrite rev_involutive, rev_app_distr in E.
  cbn in E. pose proof (trimStart_head (rev (trimStart s))) as H.
  now rewrite E in H.
Qed.

(** X6. Every creation request Add sends is well formed: it goes to
    [/transactions] under the base URL, its description is the trimmed
    input, which is not empty and neither starts nor ends with white space,
    its amount is a number greater than zero, and it carries the type and
    the user identifier unchanged. *)
Theorem creation_request_well_formed {W : Type}
    (serve : W -> Request -> FetchOutcome * W)
    (s : AppState) (w : W) (d a ty uid : jsstring) (r : Request) :
  In r (calls (run serve (handleAddTransaction d a ty uid) s w)) ->
  method r = POST ->
  exists b,
    r = {| url := API_BASE_URL ++ str "/transactions"; method := POST;
           body := Some b |} /\
    body_description b = trim d /\ body_description b <> [] /\
    (forall c t, body_description b = c :: t -> is_whitespace c = false) /\
    (forall t c, body_description b = t ++ [c] -> is_whitespace c = false) /\
    body_amount b = parseFloat a /\
    ltb zero (body_amount b) = true /\
    body_type b = ty /\ body_userId b = uid.
Proof.
  intros Hin Hm.
  destruct (validInput d a) eqn:Hv;
    [|rewrite run_handleAdd_invalid in Hin by exact Hv; destruct Hin].
  rewrite run_handleAdd_valid in Hin by exact Hv. cbv zeta in Hin.
  assert (Hr : r = addRequest (addBody d a ty uid)).
  { destruct (mutationError _); cbn [calls] in Hin.
    - destruct Hin as [<-|[]]. reflexivity.
    - rewrite run_fetchTransactions in Hin. cbn [calls] in Hin.
      destruct Hin as [<-|[<-|[]]]; [reflexivity | discriminate Hm]. }
  subst r. exists (addBody d a ty uid).
  apply validInput_spec in Hv as [Hb [Hn Hp]].
  cbn [addBody body_description body_amount body_type body_userId].
  repeat split.
  - exact Hb.
  - intros c t. apply trim_head.
  - intros t c. apply trim_last.
  - unfold ltb, leb, isNaN, zero in *.
    destruct (parseFloat a) as [[]|[]| |[] m e]; cbn in *; congruence.
Qed.

Lemma creation_request_well_formed_witness :
  let d := str "  Books " in
  let a := str "12.50" in
  let r := addRequest (addBody d a (str "expense") (str "u")) in
  (In r (calls (run scripted (handleAddTransaction d a (str "expense") (str "u"))
                  idleState [Responded (emptyResponse 500)])) /\
   method r = POST) /\
  exists b, body r = Some b /\ body_description b = str "Books".
Proof.
  intros d a r.
  assert (Hin : In r (calls (run scripted
                  (handleAddTransaction d a (str "expense") (str "u"))
                  idleState [Responded (emptyResponse 500)])))
    by (vm_compute; left; reflexivity).
  assert (Hm : method r = POST) by reflexivity.
  split; [auto|].
  destruct (creation_request_well_formed scripted idleState
              [Responded (emptyResponse 500)] d a (str "expense") (str "u") r Hin Hm)
    as (b & Hr & Hd & _).
  exists b. split; [now rewrite Hr|]. rewrite Hd. vm_compute. reflexivity.
Defined.

(** ** Amounts that start with a minus sign *)

Lemma binary_round_aux_unsigned mx ex lx :
  unsigned (binary_round_aux prec emax false mx ex lx).
Proof.
  unfold binary_round_aux.
  destruct (shr_fexp prec emax mx ex lx) as [mrs' e'].
  destruct (shr_fexp prec emax _ e' loc_Exact) as [mrs'' e''].
  destruct (shr_m mrs''); cbn; auto.
  destruct (_ <=? _)%Z; exact I.
Qed.

Lemma binary_normalize_unsigned (m e : Z) :
  (0 <= m)%Z -> unsigned (binary_normalize prec emax m e false).
Proof.
  intros Hm. destruct m as [|p|p]; cbn; [exact I| |lia].
  unfold binary_round. destruct (shl_align _ _ _) as [mz ez].
  apply binary_round_aux_unsigned.
Qed.

Lemma of_decimal_unsigned (m : N) (e : Z) : unsigned (of_decimal m e).
Proof.
  unfold of_decimal. destruct m as [|p]; [exact I|].
  destruct (0 <=? e)%Z eqn:E.
  - apply binary_normalize_unsigned. apply Z.leb_le in E.
    pose proof (Z.pow_nonneg 10 e). lia.
  - apply binary_round_aux_unsigned.
Qed.

Lemma parse_unsigned_unsigned (s : jsstring) : unsigned (parse_unsigned s).
Proof.
  unfold parse_unsigned. destruct (startsWith s (str "Infinity")); [exact I|].
  destruct (span_digits s) as [ip rest].
  destruct rest as [|c rest'].
  - destruct ip; [exact I | apply of_decimal_unsigned].
  - assert (Hdef : unsigned match ip with
                            | [] => NaN
                            | _ :: _ => of_decimal (digits_value ip)
                                          (exponent_part (c :: rest'))
                            end)
      by (destruct ip; [exact I | apply of_decimal_unsigned]).
    destruct c as [|p]; [exact Hdef|].
    do 6 (destruct p as [p|p|]; try exact Hdef).
    destruct (span_digits rest') as [fp rest''].
    destruct ip, fp; try exact I; apply of_decimal_unsigned.
Qed.

Lemma neg_unsigned_not_positive (x : number) :
  unsigned x -> isNaN (neg x) || leb (neg x) zero = true.
Proof. destruct x as [[]|[]| |[] m e]; cbn; intros H; try reflexivity; destruct H. Qed.

(** X7. An amount whose first character after leading white space is a
    minus sign is never accepted: whatever follows the sign, Add makes no
    call and leaves the list unchanged, and shows "Please enter a valid
    positive amount." when the description is not blank. *)
Theorem minus_amount_rejected {W : Type}
    (serve : W -> Request -> FetchOutcome * W)
    (s : AppState) (w : W) (d a ty uid rest : jsstring) :
  trimStart a = 45%N :: rest ->
  let r := run serve (handleAddTransaction d a ty uid) s w in
  calls r = [] /\ transactions (final r) = transactions s /\
  (~ blank d -> message (final r) = msgPositiveAmount).
Proof.
  intros Ha r. subst r.
  assert (Hv : validInput d a = false).
  { unfold validInput. unfold parseFloat. rewrite Ha.
    pose proof (neg_unsigned_not_positive _ (parse_unsigned_unsigned rest)) as H.
    destruct (isNaN _); cbn in *; [now rewrite andb_false_r|].
    rewrite H. cbn. now rewrite andb_false_r. }
  rewrite run_handleAdd_invalid by exact Hv. cbn [calls final].
  repeat split. intros Hb. cbn.
  destruct (truthy (trim d)) eqn:E.
  - destruct a; [discriminate Ha | reflexivity].
  - exfalso. apply Hb. now apply blank_truthy.
Qed.

Lemma minus_amount_rejected_witness :
  let a := str "  -3.5e2 dollars" in
  let r := run scripted
             (handleAddTransaction (str "Rent") a (str "expense") (str "u"))
             idleState [] in
  trimStart a = 45%N :: str "3.5e2 dollars" /\
  calls r = [] /\ message (final r) = msgPositiveAmount.
Proof.
  intros a r.
  assert (Ha : trimStart a = 45%N :: str "3.5e2 dollars") by reflexivity.
  split; [exact Ha|].
  destruct (minus_amount_rejected scripted idleState [] (str "Rent") a
              (str "expense") (str "u") _ Ha) as (Hc & _ & Hm).
  split; [exact Hc|]. apply Hm. unfold blank. vm_compute. discriminate.
Defined.

Lemma validation_message_witness :
  let r := run scripted
             (handleAddTransaction (str "   ") (str "0") (str "expense") (str "u"))
             idleState [] in
  validInput (str "   ") (str "0") = false /\
  message (final r) = msgBothRequired.
Proof.
  intros r.
  assert (Hv : validInput (str "   ") (str "0") = false) by (vm_compute; reflexivity).
  split; [exact Hv|].
  destruct (validation_message scripted idleState [] (str "   ") (str "0")
              (str "expense") (str "u") Hv) as (Hb & _).
  apply Hb. left. unfold blank. vm_compute. reflexivity.
Defined.

(** ** Errors of Add and Delete *)


Lemma of_uint_digits (u : Decimal.uint) : Forall (fun x => is_digit x = true) (of_uint u).
Proof. induction u; constructor; auto. Qed.

Lemma of_N_digits (n : N) : Forall (fun x => is_digit x = true) (of_N n).
Proof. apply of_uint_digits. Qed.






(** X9. When the removal request succeeds, Delete calls List and lets it run
    to its end, then shows the success message: the calls are the DELETE
    for the given id followed by the List of the user, and the final state
    is the state List left with the confirmation shown; the list shown is
    the one the refresh stored. *)
Theorem delete_success_refreshes {W : Type}
    (serve : W -> Request -> FetchOutcome * W)
    (s : AppState) (w w1 : W) (uid id : jsstring) (resp : Response) :
  serve w (deleteRequest id) = (Responded resp, w1) ->
  ok resp = true ->
  let listed := run serve (fetchTransactions uid)
                  (apply_setter (setLoading true) s) w1 in
  let r := run serve (handleDeleteTransaction uid id) s w in
  calls r = [deleteRequest id; listRequest uid] /\
  url (deleteRequest id) = API_BASE_URL ++ str "/transactions/" ++ id /\
  final r = apply_setter (setLoading false)
              (apply_setter (setShowMessage true)
                 (apply_setter (setMessage msgDeleted) (final listed))) /\
  world r = world listed /\
  transactions (final r) = transactions (final listed) /\
  MessageBox (final r) = Some msgDeleted /\
  loading (final r) = false.
Proof.
  intros Hs Hok listed r. subst listed r.
  rewrite run_handleDelete. cbv zeta. rewrite Hs. cbn [fst snd mutationError].
  rewrite Hok. rewrite run_fetchTransactions. cbn [calls final world].
  repeat split.
Qed.

Lemma delete_success_refreshes_witness :
  let w := [Responded (emptyResponse 200); Responded (emptyResponse 200)] in
  let r := run scripted (handleDeleteTransaction (str "u") (str "7")) idleState w in
  ok (emptyResponse 200) = true /\
  calls r = [deleteRequest (str "7"); listRequest (str "u")] /\
  MessageBox (final r) = Some msgDeleted.
Proof.
  intros w r. assert (Hok : ok (emptyResponse 200) = true) by reflexivity.
  split; [exact Hok|].
  destruct (delete_success_refreshes scripted idleState w
              [Responded (emptyResponse 200)] (str "u") (str "7")
              (emptyResponse 200) eq_refl Hok) as (Hc & _ & _ & _ & _ & Hm & _).
  split; assumption.
Defined.

(** ** More on the aggregates *)

Lemma add_nan_l (x : number) : add NaN x = NaN.
Proof. reflexivity. Qed.

Lemma add_nan_r (x : number) : add x NaN = NaN.
Proof. now destruct x. Qed.

Lemma fold_add_nan (l : list Transaction) :
  fold_left (fun sum t => add sum (parseFloatOf (tx_amount t))) l NaN = NaN.
Proof. induction l as [|t l IH]; [reflexivity|]. cbn [fold_left]. exact IH. Qed.

Lemma fold_add_poisoned (l : list Transaction) (t : Transaction) :
  In t l -> isNaN (amountOf t) = true ->
  forall acc,
    fold_left (fun sum t => add sum (parseFloatOf (tx_amount t))) l acc = NaN.
Proof.
  intros Hin Hn. unfold amountOf in Hn.
  induction l as [|u l IH]; [destruct Hin|]. intros acc. cbn [fold_left].
  destruct Hin as [->|Hin]; [|now apply IH].
  destruct (parseFloatOf (tx_amount t)); try discriminate Hn.
  rewrite add_nan_r. apply fold_add_nan.
Qed.

(** X10. How the totals change when a transaction is appended to the list:
    an income adds its amount to the income total, an expense adds its
    amount to the expense total, and in each case the other total is
    unchanged; a transaction of any other type changes neither. *)
Theorem totals_after_append (l : list Transaction) (t : Transaction) :
  totalIncome (l ++ [t]) =
    (if eqb (tx_type t) (str "income")
     then add (totalIncome l) (parseFloatOf (tx_amount t)) else totalIncome l) /\
  totalExpenses (l ++ [t]) =
    (if eqb (tx_type t) (str "expense")
     then add (totalExpenses l) (parseFloatOf (tx_amount t)) else totalExpenses l) /\
  (eqb (tx_type t) (str "income") = true -> totalExpenses (l ++ [t]) = totalExpenses l) /\
  (eqb (tx_type t) (str "expense") = true -> totalIncome (l ++ [t]) = totalIncome l).
Proof.
  assert (Hi : totalIncome (l ++ [t]) =
    (if eqb (tx_type t) (str "income")
     then add (totalIncome l) (parseFloatOf (tx_amount t)) else totalIncome l)).
  { unfold totalIncome. rewrite List.filter_app, fold_left_app. cbn [List.filter].
    now destruct (eqb (tx_type t) (str "income")). }
  assert (He : totalExpenses (l ++ [t]) =
    (if eqb (tx_type t) (str "expense")
     then add (totalExpenses l) (parseFloatOf (tx_amount t)) else totalExpenses l)).
  { unfold totalExpenses. rewrite List.filter_app, fold_left_app. cbn [List.filter].
    now destruct (eqb (tx_type t) (str "expense")). }
  repeat split; [exact Hi | exact He | |].
  - intros E. rewrite He. apply eqb_eq in E. rewrite E. reflexivity.
  - intros E. rewrite Hi. apply eqb_eq in E. rewrite E. reflexivity.
Qed.

(** X11. One amount that does not parse spoils the summary: if the list
    holds an income or an expense whose amount [parseFloat] reads as [NaN]
    (an empty or non-numeric string), the total of its type and the balance
    are [NaN], and both are displayed as "$NaN". *)
Theorem unparsable_amount_spoils_summary (s : AppState) (t : Transaction) :
  In t (transactions s) ->
  isNaN (amountOf t) = true ->
  (tx_type t = str "income" ->
     view_totalIncome (render s) = NaN /\ view_balance (render s) = NaN /\
     fst (fst (view_summary (render s))) = Some (str "$NaN") /\
     snd (view_summary (render s)) = Some (str "$NaN")) /\
  (tx_type t = str "expense" ->
     view_totalExpenses (render s) = NaN /\ view_balance (render s) = NaN /\
     snd (fst (view_summary (render s))) = Some (str "$NaN") /\
     snd (view_summary (render s)) = Some (str "$NaN")).
Proof.
  intros Hin Hn. split; intros Hty.
  - assert (E : totalIncome (transactions s) = NaN).
    { unfold totalIncome. apply (fold_add_poisoned _ t); [|exact Hn].
      apply filter_In. split; [exact Hin|]. rewrite Hty. apply eqb_refl. }
    unfold render, balance. cbn [view_totalIncome view_balance view_summary fst snd].
    rewrite E. repeat split.
  - assert (E : totalExpenses (transactions s) = NaN).
    { unfold totalExpenses. apply (fold_add_poisoned _ t); [|exact Hn].
      apply filter_In. split; [exact Hin|]. rewrite Hty. apply eqb_refl. }
    unfold render, balance. cbn [view_totalExpenses view_balance view_summary fst snd].
    rewrite E.
    assert (Es : forall x, sub x NaN = NaN) by (now destruct x).
    rewrite Es. repeat split.
Qed.

Lemma unparsable_amount_spoils_summary_witness :
  let t := {| tx_id := str "9"; tx_description := str "Gift";
              tx_amount := AmountString (str "n/a"); tx_type := str "income";
              tx_timestamp := 0; tx_userId := str "u" |} in
  let s := apply_setter (setTransactions [t]) idleState in
  (In t (transactions s) /\ isNaN (amountOf t) = true /\ tx_type t = str "income") /\
  snd (view_summary (render s)) = Some (str "$NaN").
Proof.
  intros t s.
  assert (Hin : In t (transactions s)) by (left; reflexivity).
  assert (Hn : isNaN (amountOf t) = true) by reflexivity.
  split; [auto|].
  destruct (unparsable_amount_spoils_summary s t Hin Hn) as [Hi _].
  destruct (Hi eq_refl) as (_ & _ & _ & Hb). exact Hb.
Defined.

Lemma filter_known (ty : jsstring) (l : list Transaction) :
  ty = str "income" \/ ty = str "expense" ->
  List.filter (fun t => eqb (tx_type t) ty)
    (List.filter (fun t => eqb (tx_type t) (str "income") ||
                           eqb (tx_type t) (str "expense")) l) =
  List.filter (fun t => eqb (tx_type t) ty) l.
Proof.
  intros Hty. induction l as [|t l IH]; [reflexivity|]. cbn [List.filter].
  destruct (eqb (tx_type t) (str "income")) eqn:Ei;
    destruct (eqb (tx_type t) (str "expense")) eqn:Ee;
    cbn [orb List.filter]; rewrite ?IH; try reflexivity.
  destruct Hty as [-> | ->]; now rewrite ?Ei, ?Ee.
Qed.

(** X12. The history shows every transaction of the list, in order, each
    with the id its delete button sends; a transaction whose type is not
    income is drawn as an expense.  The totals, however, count only the
    types income and expense: a transaction of any other type is listed,
    drawn as an expense, and part of no total. *)
Theorem history_rows_and_totals (s : AppState) :
  let known := List.filter (fun t => eqb (tx_type t) (str "income") ||
                                     eqb (tx_type t) (str "expense"))
                 (transactions s) in
  List.map row_key (rows s) = List.map tx_id (transactions s) /\
  List.map row_description (rows s) = List.map tx_description (transactions s) /\
  (forall t, In t (transactions s) -> tx_type t <> str "income" ->
     exists r, In r (rows s) /\ row_key r = tx_id t /\ row_income r = false) /\
  totalIncome (transactions s) = totalIncome known /\
  totalExpenses (transactions s) = totalExpenses known /\
  balance (transactions s) = balance known.
Proof.
  intros known. subst known. unfold rows. rewrite !List.map_map. cbn [row_key row_description].
  split; [reflexivity|]. split; [reflexivity|]. split.
  - intros t Hin Hty. eexists. split.
    + apply in_map. exact Hin.
    + cbn [row_key row_income]. split; [reflexivity|].
      destruct (eqb (tx_type t) (str "income")) eqn:E; [|reflexivity].
      apply eqb_eq in E. contradiction.
  - unfold balance, totalIncome, totalExpenses.
    rewrite !filter_known by auto. repeat split.
Qed.

(** ** What the page shows *)

(** X13. The first render, for every storage, clock and random text: the
    effect always calls List (the identifier is never empty), once in a
    production build and twice in a development build, each time for the
    identifier of the initializer and nothing else; meanwhile the history
    reads "Loading transactions...", the Add button is disabled and reads
    "Adding...", no notice is open and the summary shows three times
    $0.00. *)
Theorem first_render (b : Build)
    (storage : gmap jsstring jsstring) (now : N) (random36 : jsstring) :
  let uid := fst (initUserId storage now random36) in
  let c := mount b uid in
  List.map request (pending c) = List.repeat (listRequest uid) (effectRuns b) /\
  app c = initialState uid /\
  emptyStateTexts (app c) = [str "Loading transactions..."] /\
  addButtonLabel (app c) = str "Adding..." /\
  view_controlsDisabled (render (app c)) = true /\
  MessageBox (app c) = None /\
  rows (app c) = [] /\
  view_summary (render (app c)) =
    (Some (str "$0.00"), Some (str "$0.00"), Some (str "$0.00")).
Proof.
  intros uid c. subst c. unfold mount.
  replace (truthy uid) with true
    by (symmetry; apply (proj2 (initUserId_stored storage now random36))).
  destruct b;
    cbn [effectRuns launchTimes launch advance fetchTransactions bind set app
         pending enqueue app List.map List.repeat request apply_setter
         initialState];
    repeat split.
Qed.

(** X14. After a List that failed, for every kind of failure: the error
    notice is open, and under it the page reads like an empty account: the
    history says "No transactions recorded yet. Add one above!", there is
    no row, and the summary shows three times $0.00.  The controls are
    enabled again. *)
Theorem failed_list_looks_empty {W : Type}
    (serve : W -> Request -> FetchOutcome * W)
    (s : AppState) (w w' : W) (uid msg : jsstring) (o : FetchOutcome) :
  serve w (listRequest uid) = (o, w') ->
  listOutcome o = inr msg ->
  let s' := final (run serve (fetchTransactions uid) s w) in
  MessageBox s' = Some (fetchUserMessage msg) /\
  emptyStateTexts s' = [str "No transactions recorded yet. Add one above!"] /\
  rows s' = [] /\
  view_summary (render s') =
    (Some (str "$0.00"), Some (str "$0.00"), Some (str "$0.00")) /\
  addButtonLabel s' = str "Add Transaction" /\
  view_controlsDisabled (render s') = false.
Proof.
  intros Hs Hf s'. subst s'. rewrite run_fetchTransactions, Hs. cbn [fst final].
  rewrite (transactions_afterList_failed _ _ _ Hf). repeat split.
Qed.

Lemma failed_list_looks_empty_witness :
  let o := Responded (errorResponse 503 (str "maintenance") None) in
  let s' := final (run scripted (fetchTransactions (str "u")) idleState [o]) in
  listOutcome o = inr (httpErrorOnFetch 503 (str "maintenance")) /\
  emptyStateTexts s' = [str "No transactions recorded yet. Add one above!"] /\
  MessageBox s' =
    Some (str "Error fetching data: HTTP error! Status: 503. Message: maintenance").
Proof.
  intros o s'.
  assert (Hf : listOutcome o = inr (httpErrorOnFetch 503 (str "maintenance")))
    by reflexivity.
  split; [exact Hf|].
  destruct (failed_list_looks_empty scripted idleState [o] [] (str "u") _ o
              eq_refl Hf) as (Hm & He & _).
  split; [exact He|]. unfold s'. rewrite Hm. vm_compute. reflexivity.
Defined.

(** X15. The Add button reads "Add Transaction", and the delete buttons
    are enabled, whenever no request is outstanding, in every build.  In a
    production build the button reads "Adding..." and the delete buttons
    are disabled exactly while a request is outstanding, whichever
    operation made it (the first List and a Delete as well as an Add).  At
    most one of the two empty-history texts is shown. *)
Theorem busy_label (b : Build)
    (storage : gmap jsstring jsstring) (now : N) (random36 : jsstring)
    (c : Config) :
  reachable b (fst (initUserId storage now random36)) c ->
  (pending c = [] ->
     addButtonLabel (app c) = str "Add Transaction" /\
     Forall (fun r => row_deleteDisabled r = false) (rows (app c))) /\
  (b = Production -> pending c <> [] ->
     addButtonLabel (app c) = str "Adding..." /\
     Forall (fun r => row_deleteDisabled r = true) (rows (app c))) /\
  length (emptyStateTexts (app c)) <= 1.
Proof.
  intros Hr.
  pose proof (proj2 (initUserId_stored storage now random36)) as Ht.
  assert (Hrows : forall v, loading (app c) = v ->
            Forall (fun r => row_deleteDisabled r = v) (rows (app c))).
  { intros v <-. unfold rows. apply List.Forall_forall. intros r Hin.
    apply in_map_iff in Hin as (t & <- & _). reflexivity. }
  unfold addButtonLabel. split; [|split].
  - intros Hp.
    pose proof (proj1 (reachable_eventually_idle _ _ _ Ht Hr) Hp) as Hl.
    rewrite Hl. split; [reflexivity | now apply Hrows].
  - intros -> Hp. pose proof (reachable_invariant _ _ Ht Hr) as Hi.
    unfold idle_or_pending in Hi.
    destruct (pending c) as [|p [|q l]]; [congruence| |destruct Hi].
    destruct Hi as [Hl _]. rewrite Hl. split; [reflexivity | now apply Hrows].
  - unfold emptyStateTexts.
    destruct (loading (app c));
      destruct (length (transactions (app c)) =? 0)%nat; cbn; lia.
Qed.

Lemma busy_label_witness :
  let uid := fst (initUserId ∅ 1700000000000 (str "0.4fzyo82mvyr")) in
  let c := mount Production uid in
  reachable Production uid c /\ addButtonLabel (app c) = str "Adding...".
Proof.
  intros uid c. assert (Hr : reachable Production uid c) by apply reachable_mount.
  split; [exact Hr|].
  destruct (busy_label Production ∅ 1700000000000 (str "0.4fzyo82mvyr") c Hr)
    as (_ & Hl & _).
  apply Hl; [reflexivity | discriminate].
Defined.

(** ** Two decimals *)

Lemma fixed2_shape (n : N) :
  exists a b, fixed2 n = a ++ str "." ++ b /\ a <> [] /\ length b = 2%nat /\
              Forall (fun x => is_digit x = true) a /\
              Forall (fun x => is_digit x = true) b.
Proof.
  unfold fixed2.
  set (ds := List.repeat 48%N (3 - length (of_N n)) ++ of_N n).
  assert (Hlen : (3 <= length ds)%nat).
  { unfold ds. rewrite length_app, repeat_length. lia. }
  assert (Hd : Forall (fun x => is_digit x = true) ds).
  { unfold ds. apply Forall_app. split; [|apply of_N_digits].
    apply List.Forall_forall. intros x Hx. apply repeat_spec in Hx. now subst x. }
  rewrite <- (firstn_skipn (length ds - 2) ds) in Hd.
  apply Forall_app in Hd as [Ha Hb].
  exists (firstn (length ds - 2) ds), (skipn (length ds - 2) ds).
  split; [reflexivity|]. split; [|split; [|split; assumption]].
  - intros E. apply (f_equal (@length N)) in E.
    rewrite length_firstn in E. cbn in E. lia.
  - rewrite length_skipn. lia.
Qed.

(** X16. The shape of every amount text below 10^21 in magnitude:
    [x.toFixed(2)] is an optional minus sign, one or more decimal digits, a
    point and exactly two decimal digits, and the cell text puts a dollar
    sign before it. *)
Theorem two_decimals (sg : bool) (m : positive) (e : Z) (t : jsstring) :
  toFixed2 (S754_finite sg m e) = Some t ->
  exists a b,
    t = (if sg then str "-" else []) ++ a ++ str "." ++ b /\
    a <> [] /\ length b = 2%nat /\
    Forall (fun x => is_digit x = true) a /\
    Forall (fun x => is_digit x = true) b /\
    dollars (S754_finite sg m e) = Some (str "$" ++ t).
Proof.
  unfold dollars. cbn [toFixed2].
  destruct (10 ^ 21 <=? Z.pos m * 2 ^ e)%Z; [discriminate|].
  intros [= <-].
  destruct (fixed2_shape (hundredths m e)) as (a & b & E & Ha & Hb & Hda & Hdb).
  exists a, b. rewrite E. repeat split; assumption.
Qed.

Lemma two_decimals_witness :
  toFixed2 (parseFloat (str "-1234.5")) = Some (str "-1234.50") /\
  dollars (parseFloat (str "-1234.5")) = Some (str "$-1234.50").
Proof.
  assert (H : toFixed2 (parseFloat (str "-1234.5")) = Some (str "-1234.50"))
    by (vm_compute; reflexivity).
  split; [exact H|].
  assert (E : parseFloat (str "-1234.5") = S754_finite true 5429388417957888 (-42))
    by (vm_compute; reflexivity).
  rewrite E in *.
  destruct (two_decimals true _ _ _ H) as (a & b & _ & _ & _ & _ & _ & Hd).
  exact Hd.
Defined.

(** ** When the connection notice is chosen *)

Lemma startsWith_spec (s p : jsstring) :
  startsWith s p = true <-> exists r, s = p ++ r.
Proof.
  split.
  - revert s. induction p as [|a p IH]; intros s H; [now exists s|].
    destruct s as [|b s]; [discriminate H|]. cbn in H.
    apply andb_prop in H as [E H]. apply N.eqb_eq in E as ->.
    destruct (IH _ H) as [r ->]. now exists r.
  - intros [r ->]. apply startsWith_app.
Qed.

Lemma includes_spec (s n : jsstring) :
  includes s n = true <-> exists p r, s = p ++ n ++ r.
Proof.
  split.
  - induction s as [|c s IH]; cbn [includes]; intros H.
    + rewrite orb_false_r in H. apply startsWith_spec in H as [r ->].
      now exists [], r.
    + apply orb_prop in H as [H|H].
      * apply startsWith_spec in H as [r ->]. now exists [], r.
      * destruct (IH H) as (p & r & ->). now exists (c :: p), r.
  - intros (p & r & ->). apply includes_infix.
Qed.

(** X17. The "Could not connect to the backend server ..." notice is chosen
    exactly when the message of the caught error contains the text "Failed
    to fetch" or the text "NetworkError" somewhere, wherever the error came
    from (a rejected fetch, a status outside 200-299, a body that could not
    be read); List, Add and Delete decide in the same way. *)
Theorem connection_notice_iff (msg : jsstring) :
  let contains := (exists p r, msg = p ++ str "Failed to fetch" ++ r) \/
                  (exists p r, msg = p ++ str "NetworkError" ++ r) in
  (fetchUserMessage msg = cannotConnectOnFetch <-> contains) /\
  (addUserMessage msg = cannotConnect <-> contains) /\
  (deleteUserMessage msg = cannotConnect <-> contains).
Proof.
  intros contains.
  assert (Hc : isNetworkMessage msg = true <-> contains).
  { unfold isNetworkMessage, contains.
    rewrite orb_true_iff, !includes_spec. reflexivity. }
  unfold fetchUserMessage, addUserMessage, deleteUserMessage.
  destruct (isNetworkMessage msg).
  - repeat split; intros _; try reflexivity; now apply Hc.
  - repeat split; intros H;
      try (apply Hc in H; discriminate H);
      exfalso; revert H;
      apply (error_notice_differs _ msg); now eexists.
Qed.

(** ** Requests carry the user's identifier *)

Lemma userId_apply_setter (u : Setter) (s : AppState) :
  userId (apply_setter u s) = userId s.
Proof. now destruct u. Qed.

Lemma advance_userId (p : prog unit) : forall s,
  userId (fst (advance p s)) = userId s.
Proof.
  induction p as [a|msg|u k IH|r k IH]; intros s; cbn; try reflexivity.
  rewrite IH. apply userId_apply_setter.
Qed.

Lemma advance_all_requests (P : Request -> Prop) (p : prog unit) : forall s,
  all_requests P p ->
  match snd (advance p s) with
  | Some q => P (request q) /\ forall o, all_requests P (resume q o)
  | None => True
  end.
Proof.
  induction p as [a|msg|u k IH|r k IH]; intros s H; cbn in *.
  - exact I.
  - exact I.
  - now apply IH.
  - exact H.
Qed.

Lemma scoped_list uid : scoped uid (listRequest uid).
Proof. split; [reflexivity | discriminate]. Qed.

Lemma scoped_add d a ty uid : scoped uid (addRequest (addBody d a ty uid)).
Proof. split; [discriminate|]. now intros b [= <-]. Qed.

Lemma scoped_delete uid id : scoped uid (deleteRequest id).
Proof. split; discriminate. Qed.

Lemma all_requests_fetchTransactions uid :
  all_requests (scoped uid) (fetchTransactions uid).
Proof.
  cbn. split; [apply scoped_list|].
  intros [msg|r]; cbn; [exact I|].
  destruct (ok r); cbn.
  - now destruct (json_data r).
  - now destruct (text r).
Qed.

Lemma all_requests_handleAdd d a ty uid :
  all_requests (scoped uid) (handleAddTransaction d a ty uid).
Proof.
  unfold handleAddTransaction.
  destruct (negb (truthy (trim d)) || negb (truthy a)); [exact I|].
  destruct (isNaN (parseFloat a) || leb (parseFloat a) zero); [exact I|].
  cbn. split; [apply (scoped_add d a ty uid)|].
  intros [msg|r]; cbn; [exact I|].
  destruct (ok r); cbn.
  - split; [apply scoped_list|].
    intros [msg|r2]; cbn; [exact I|].
    destruct (ok r2); cbn.
    + now destruct (json_data r2).
    + now destruct (text r2).
  - now destruct (json_error r).
Qed.

Lemma all_requests_handleDelete uid id :
  all_requests (scoped uid) (handleDeleteTransaction uid id).
Proof.
  cbn. split; [apply scoped_delete|].
  intros [msg|r]; cbn; [exact I|].
  destruct (ok r); cbn.
  - split; [apply scoped_list|].
    intros [msg|r2]; cbn; [exact I|].
    destruct (ok r2); cbn.
    + now destruct (json_data r2).
    + now destruct (text r2).
  - now destruct (json_error r).
Qed.

Lemma launch_acts_for uid p c :
  userId (app c) = uid ->
  all_requests (scoped uid) p ->
  Forall (acts_for uid) (pending c) ->
  userId (app (launch p c)) = uid /\ Forall (acts_for uid) (pending (launch p c)).
Proof.
  intros Hu Hp Hq. unfold launch.
  pose proof (advance_userId p (app c)) as Hid.
  pose proof (advance_all_requests _ p (app c) Hp) as Ha.
  destruct (advance p (app c)) as [s' [q|]]; cbn [fst snd app pending enqueue] in *.
  - split; [congruence|]. apply Forall_app. split; [exact Hq|].
    constructor; [exact Ha | constructor].
  - split; [congruence | exact Hq].
Qed.

Lemma step_acts_for uid c c' :
  step c c' ->
  userId (app c) = uid /\ Forall (acts_for uid) (pending c) ->
  userId (app c') = uid /\ Forall (acts_for uid) (pending c').
Proof.
  intros Hs [Hu Hq].
  destruct Hs as [c v|c v|c v|c|c He|c t He Ht|c before p after o Hp];
    cbn [app pending]; rewrite ?userId_apply_setter; auto.
  - apply launch_acts_for; auto. rewrite Hu. apply all_requests_handleAdd.
  - apply launch_acts_for; auto. rewrite Hu. apply all_requests_handleDelete.
  - rewrite Hp in Hq. apply Forall_app in Hq as [Hb Hq].
    apply Forall_cons in Hq as [[_ Hk] Haf].
    apply launch_acts_for; cbn [app pending]; auto.
    apply Forall_app. auto.
Qed.

(** X18. In every configuration the application can reach, in either
    build, the identifier in the state is the one it was mounted with
    (nothing ever changes it), and every outstanding request is made on its
    behalf: an outstanding List is the List of that identifier, and an
    outstanding creation request carries it in its body. *)
Theorem requests_carry_identifier (b : Build) (uid : jsstring) (c : Config) :
  reachable b uid c ->
  userId (app c) = uid /\
  Forall (fun q => scoped uid (request q)) (pending c).
Proof.
  intros Hr.
  assert (H : userId (app c) = uid /\ Forall (acts_for uid) (pending c)).
  { induction Hr as [|c c' _ IH Hs].
    - unfold mount.
      assert (Hn : forall n c0, userId (app c0) = uid ->
                Forall (acts_for uid) (pending c0) ->
                userId (app (launchTimes n (fetchTransactions uid) c0)) = uid /\
                Forall (acts_for uid)
                  (pending (launchTimes n (fetchTransactions uid) c0))).
      { induction n as [|n IHn]; intros c0 Hu Hq; [auto|]. cbn [launchTimes].
        destruct (launch_acts_for uid (fetchTransactions uid) c0 Hu
                    (all_requests_fetchTransactions uid) Hq) as [Hu' Hq'].
        now apply IHn. }
      destruct (truthy uid).
      + apply Hn; [reflexivity | constructor].
      + split; [reflexivity | constructor].
    - eapply step_acts_for; eauto. }
  destruct H as [Hu Hq]. split; [exact Hu|].
  eapply List.Forall_impl; [|exact Hq]. now intros q [Hsc _].
Qed.

Lemma requests_carry_identifier_witness :
  let c := settleFirst (Responded (emptyResponse 200))
             (mount Development (str "user_1_abc")) in
  reachable Development (str "user_1_abc") c /\
  userId (app c) = str "user_1_abc" /\
  List.map request (pending c) = [listRequest (str "user_1_abc")].
Proof.
  intros c.
  assert (Hr : reachable Development (str "user_1_abc") c).
  { eapply reachable_step; [apply reachable_mount|].
    apply step_settleFirst. discriminate. }
  split; [exact Hr|].
  destruct (requests_carry_identifier Development (str "user_1_abc") c Hr) as [Hu _].
  split; [exact Hu | reflexivity].
Defined.

(** ** Typing while an Add is under way *)

(** X19. The form is not locked while a request is outstanding, but what is
    typed during a successful Add is lost: once the creation request has
    been sent, whatever the state has become when its success arrives, the
    handler goes on to the List request, and whatever the state has become
    when that one settles (with any outcome), the handler ends with the
    description and the amount emptied, the type set to expense and the
    confirmation shown. *)
Theorem typing_during_add_is_lost (d a ty uid : jsstring) (s0 : AppState) :
  validInput d a = true ->
  exists p1,
    advance (handleAddTransaction d a ty uid) s0 =
      (apply_setter (setLoading true) s0, Some p1) /\
    request p1 = addRequest (addBody d a ty uid) /\
    forall resp s1, ok resp = true ->
      exists p2,
        advance (resume p1 (Responded resp)) s1 =
          (apply_setter (setLoading true) s1, Some p2) /\
        request p2 = listRequest uid /\
        forall o s2,
          snd (advance (resume p2 o) s2) = None /\
          form (fst (advance (resume p2 o) s2)) = ([], [], str "expense") /\
          MessageBox (fst (advance (resume p2 o) s2)) = Some msgAdded /\
          loading (fst (advance (resume p2 o) s2)) = false.
Proof.
  intros Hv. pose proof (validInput_amount _ _ Hv) as Ha.
  unfold validInput in Hv. apply andb_prop in Hv as [Hv Hpos].
  apply andb_prop in Hv as [Hd Hnan]. apply negb_true_iff in Hnan, Hpos.
  unfold handleAddTransaction. rewrite Hd, Ha, Hnan, Hpos. cbn [negb orb].
  cbn [bind set finally tryCatch fetch advance]. fold (addBody d a ty uid).
  eexists. split; [reflexivity|]. split; [reflexivity|].
  intros resp s1 Hok. cbn [resume]. cbn [bind finally tryCatch]. rewrite Hok.
  cbn [negb bind finally tryCatch fetchTransactions set fetch advance].
  eexists. split; [reflexivity|]. split; [reflexivity|].
  intros o s2. cbn [resume].
  destruct o as [msg|r]; cbn; [repeat split|].
  destruct (ok r); cbn.
  - destruct (json_data r); cbn; repeat split.
  - destruct (text r); cbn; repeat split.
Qed.

Lemma typing_during_add_is_lost_witness :
  validInput (str "Books") (str "12.50") = true /\
  exists p1,
    advance (handleAddTransaction (str "Books") (str "12.50") (str "income") (str "u"))
      idleState = (apply_setter (setLoading true) idleState, Some p1) /\
    request p1 = addRequest (addBody (str "Books") (str "12.50") (str "income") (str "u")).
Proof.
  assert (Hv : validInput (str "Books") (str "12.50") = true)
    by (vm_compute; reflexivity).
  split; [exact Hv|].
  destruct (typing_during_add_is_lost (str "Books") (str "12.50") (str "income")
              (str "u") idleState Hv) as (p1 & H1 & H2 & _).
  exists p1. split; assumption.
Defined.

(** ** The initializer and the rest of the storage *)

